(** * Year in Pixels: a shallow embedding of [year_in_pixels.py]

    The development follows the layout of the script: the mood
    vocabulary and the daily entry, ISO date parsing, the year grid of
    [display_year], the CSV store ([read_days_from_file] and the save
    block of the [log] command) and the two commands.

    Python values are modelled as follows.  A [str] is a [string]; the
    characters of a file are a [list ascii].  A [datetime.date] is a
    record of three integers together with the validity predicate that
    the [date] constructor enforces.  Exceptions are values of [exn] and
    a computation that may raise has type [result A].  The file system is
    a finite map from paths to file contents. *)

From Stdlib Require Import ZArith Ascii String List Lia Bool.
From stdpp Require Import gmap strings list fin_maps.

Set Default Proof Using "Type".

(** ** Exceptions and the error monad *)

Inductive exn : Type :=
| FileNotFoundError (path : string)
| FileExistsError
| OSError
| ValueError (msg : string)
| KeyError (key : option string)
| TypeError
| IndexError
| csv_Error (msg : string).

Definition result (A : Type) : Type := exn + A.

Definition raise {A : Type} (e : exn) : result A := inl e.
Definition ret {A : Type} (a : A) : result A := inr a.

Definition bind {A B : Type} (m : result A) (k : A -> result B) : result B :=
  match m with
  | inl e => inl e
  | inr a => k a
  end.

Notation "x <~ m ;; k" := (bind m (fun x => k))
  (at level 100, m at next level, right associativity).

Definition raises {A : Type} (m : result A) : Prop := exists e, m = inl e.

(** ** Record model *)

(** Colour definitions (red, green, blue). *)
Definition color : Type := (Z * Z * Z)%type.

Definition pink : color := (0xff, 0, 0xff)%Z.
Definition lblue : color := (0, 0xff, 0xff)%Z.
Definition mblue : color := (0, 0, 0xff)%Z.
Definition green : color := (0, 0xff, 0)%Z.
Definition navy : color := (0, 0, 0x80)%Z.
Definition yellow : color := (0xff, 0xff, 0)%Z.
Definition orange : color := (0xff, 0xa5, 0x00)%Z.
Definition black : color := (0, 0, 0)%Z.

(** Supported moods for each day. *)
Inductive DayMood : Type :=
| amazing | good | normal | tired | sad | angry | stressed.

Module DayMood.

Definition name (m : DayMood) : string :=
  match m with
  | amazing => "amazing"
  | good => "good"
  | normal => "normal"
  | tired => "tired"
  | sad => "sad"
  | angry => "angry"
  | stressed => "stressed"
  end.

Definition desc (m : DayMood) : string :=
  match m with
  | amazing => "amazing, fantastic day"
  | good => "really good, happy day"
  | normal => "normal, average day"
  | tired => "exhausted, tired day"
  | sad => "depressed, sad day"
  | angry => "frustrated, angry day"
  | stressed => "stressed out, frantic day"
  end.

Definition color (m : DayMood) : color :=
  match m with
  | amazing => pink
  | good => lblue
  | normal => mblue
  | tired => green
  | sad => navy
  | angry => yellow
  | stressed => orange
  end.

(** The members in definition order, as iterating the enumeration
    yields them. *)
Definition members : list DayMood :=
  [amazing; good; normal; tired; sad; angry; stressed].

(** [DayMood[key]]: lookup of a member by name; [KeyError] when no
    member has that name.  The key is [None] when the caller passes
    Python's [None]. *)
Definition getitem (key : option string) : result DayMood :=
  match key with
  | None => raise (KeyError None)
  | Some s =>
      match List.find (fun m => String.eqb (name m) s) members with
      | Some m => ret m
      | None => raise (KeyError (Some s))
      end
  end.

End DayMood.

Global Instance DayMood_eq_dec : EqDecision DayMood.
Proof. solve_decision. Defined.

(** A calendar date as [datetime.date] holds it. *)
Record date : Type := mkdate { year : Z; month : Z; day : Z }.

Global Instance date_eq_dec : EqDecision date.
Proof. solve_decision. Defined.

Definition is_leap (y : Z) : bool :=
  ((y mod 4 =? 0) && (negb (y mod 100 =? 0) || (y mod 400 =? 0)))%Z.

Definition days_in_month (y m : Z) : Z :=
  if (m =? 2)%Z then (if is_leap y then 29 else 28)%Z
  else if ((m =? 4) || (m =? 6) || (m =? 9) || (m =? 11))%Z then 30%Z
  else 31%Z.

(** The checks of the [date] constructor: year in [1, 9999], month in
    [1, 12], day in [1, days in that month]. *)
Definition check_date_fields (y m d : Z) : result date :=
  if negb ((1 <=? y) && (y <=? 9999))%Z then
    raise (ValueError "year is out of range")
  else if negb ((1 <=? m) && (m <=? 12))%Z then
    raise (ValueError "month must be in 1..12")
  else if negb ((1 <=? d) && (d <=? days_in_month y m))%Z then
    raise (ValueError "day is out of range for month")
  else ret (mkdate y m d).

Definition valid_date (d : date) : Prop :=
  check_date_fields (year d) (month d) (day d) = inr d.

(** Daily mood entry: the date, the mood and a comment.  The comment is
    a [str], or Python's [None] when the entry was read from a row that
    has no comment column. *)
Record DayEntry : Type := mkDayEntry {
  entry_date : date;
  entry_mood : DayMood;
  entry_comment : option string
}.

Global Instance DayEntry_eq_dec : EqDecision DayEntry.
Proof. solve_decision. Defined.

Definition valid_entry (e : DayEntry) : Prop := valid_date (entry_date e).

(** ** Python list indexing *)

(** An index [i] into a list of length [len]: non-negative indices count
    from the front, negative ones from the back, anything else is out of
    range. *)
Definition norm_index (len : nat) (i : Z) : option nat :=
  if decide (0 <= i < Z.of_nat len)%Z then Some (Z.to_nat i)
  else if decide (- Z.of_nat len <= i < 0)%Z then Some (Z.to_nat (i + Z.of_nat len))
  else None.

Definition list_getitem {A : Type} (l : list A) (i : Z) : result A :=
  match norm_index (length l) i ≫= (fun n => l !! n) with
  | Some x => ret x
  | None => raise IndexError
  end.

Definition list_setitem {A : Type} (l : list A) (i : Z) (x : A) : result (list A) :=
  match norm_index (length l) i with
  | Some n => ret (<[n:=x]> l)
  | None => raise IndexError
  end.

(** ** The year grid of [display_year] *)

Definition w : nat := 12.
Definition h : nat := 31.

Abbreviation grid := (list (list color)).

(** [[black for x in range(w)] for y in range(h)]: every row is a list
    of its own. *)
Definition blank_grid : grid :=
  (fun _ => (fun _ => black) <$> seq 0 w) <$> seq 0 h.

(** [X[d.date.day - 1][d.date.month - 1] = d.mood.color] *)
Definition set_pixel (X : grid) (d : DayEntry) : result grid :=
  row <~ list_getitem X (day (entry_date d) - 1) ;;
  row' <~ list_setitem row (month (entry_date d) - 1)
                       (DayMood.color (entry_mood d)) ;;
  list_setitem X (day (entry_date d) - 1) row'.

(** [for d in days: ...] *)
Fixpoint fill_grid (X : grid) (days : list DayEntry) : result grid :=
  match days with
  | [] => ret X
  | d :: ds => X' <~ set_pixel X d ;; fill_grid X' ds
  end.

(** The matrix that [display_year] hands to [imshow]. *)
Definition build_year_grid (days : list DayEntry) : result grid :=
  fill_grid blank_grid days.

Definition cell (X : grid) (i j : nat) : option color :=
  X !! i ≫= (fun row => row !! j).

(** The entries of [days] that fall on row [i], column [j]. *)
Definition on_cell (i j : nat) (d : DayEntry) : Prop :=
  (day (entry_date d) - 1 = Z.of_nat i /\ month (entry_date d) - 1 = Z.of_nat j)%Z.

Global Instance on_cell_dec i j d : Decision (on_cell i j d).
Proof. unfold on_cell. apply _. Defined.

(** What a cell shows: the mood colour of the last entry that falls on
    it, black when there is none. *)
Definition painted (days : list DayEntry) (i j : nat) : color :=
  match last (filter (on_cell i j) days) with
  | Some d => DayMood.color (entry_mood d)
  | None => black
  end.

(** The shape that [display_year] gives its matrix. *)
Definition shaped (X : grid) : Prop :=
  length X = h /\ Forall (fun row => length row = w) X.

(** A date whose day and month are within the grid. *)
Definition grid_indexable (d : date) : Prop :=
  (1 <= day d <= 31)%Z /\ (1 <= month d <= 12)%Z.

(** ** Upsert, as the [log] command computes it *)

(** The test of the [lambda]: the entry [d] is on another date than
    [day]. *)
Definition other_date (day d : DayEntry) : Prop :=
  entry_date d <> entry_date day.

Global Instance other_date_dec day d : Decision (other_date day d).
Proof. unfold other_date. apply _. Defined.

(** [days = list(filter(lambda d: d.date != day.date, days));
    days.append(day)] *)
Definition upsert (days : list DayEntry) (day : DayEntry) : list DayEntry :=
  filter (other_date day) days ++ [day].

(** ** Dates as text *)

Definition digit_char (n : Z) : ascii := ascii_of_nat (48 + Z.to_nat n).

(** The decimal digits of a non-negative integer, most significant
    first. *)
Fixpoint decimal_digits (fuel : nat) (n : Z) (acc : string) : string :=
  match fuel with
  | O => acc
  | S fuel' =>
      let acc' := String (digit_char (n mod 10)) acc in
      if (n / 10 =? 0)%Z then acc' else decimal_digits fuel' (n / 10) acc'
  end.

Definition str_of_int (n : Z) : string :=
  decimal_digits (S (Z.to_nat (Z.log2 n))) n EmptyString.

Definition zfill (width : nat) (s : string) : string :=
  string_of_list_ascii (replicate (width - String.length s) "0"%char) +:+ s.

(** ["%0<width>d" % n] for a non-negative [n]. *)
Definition format_0d (width : nat) (n : Z) : string :=
  zfill width (str_of_int n).

(** [str(d)] of a date: ["%04d-%02d-%02d" % (year, month, day)]. *)
Definition isoformat (d : date) : string :=
  format_0d 4 (year d) +:+ "-" +:+ format_0d 2 (month d) +:+ "-"
  +:+ format_0d 2 (day d).

(** *** [datetime.strptime(s, '%Y-%m-%d')]

    [strptime] compiles the format to the regular expression
    [(?P<Y>\d\d\d\d)-(?P<m>1[0-2]|0[1-9]|[1-9])-(?P<d>3[0-1]|[1-2]\d|0[1-9]|[1-9]| [1-9])]
    and matches it at the start of the text.  A group is modelled by the
    list of ways it can match a prefix of the text, in the order in which
    the backtracking matcher tries them; each way is the matched text and
    what is left. *)

Definition in_range (lo hi : ascii) (c : ascii) : bool :=
  (nat_of_ascii lo <=? nat_of_ascii c)%nat && (nat_of_ascii c <=? nat_of_ascii hi)%nat.

Definition is_char (a : ascii) (c : ascii) : bool := Ascii.eqb a c.

Definition is_digit : ascii -> bool := in_range "0" "9".

(** A sequence of character classes, one per character. *)
Fixpoint re_chars (classes : list (ascii -> bool)) (s : string)
  : list (string * string) :=
  match classes with
  | [] => [(EmptyString, s)]
  | p :: ps =>
      match s with
      | String c s' =>
          if p c then
            (fun '(matched, rest) => (String c matched, rest)) <$> re_chars ps s'
          else []
      | EmptyString => []
      end
  end.

Definition re_Y (s : string) : list (string * string) :=
  re_chars [is_digit; is_digit; is_digit; is_digit] s.

Definition re_m (s : string) : list (string * string) :=
  re_chars [is_char "1"; in_range "0" "2"] s
  ++ re_chars [is_char "0"; in_range "1" "9"] s
  ++ re_chars [in_range "1" "9"] s.

Definition re_d (s : string) : list (string * string) :=
  re_chars [is_char "3"; in_range "0" "1"] s
  ++ re_chars [in_range "1" "2"; is_digit] s
  ++ re_chars [is_char "0"; in_range "1" "9"] s
  ++ re_chars [in_range "1" "9"] s
  ++ re_chars [is_char " "; in_range "1" "9"] s.

Definition re_dash (s : string) : list (string * string) :=
  re_chars [is_char "-"] s.

(** The month group, the dash and the day group: the two matched texts
    and what is left. *)
Definition re_md (s : string) : list (string * string * string) :=
  m ← re_m s;
  sep2 ← re_dash m.2;
  d ← re_d sep2.2;
  [(m.1, d.1, d.2)].

(** The first complete match, as [re.match] returns it: the three groups
    and the text after the match. *)
Definition re_match_Ymd (s : string) : option (string * (string * string * string)) :=
  head
    (Y ← re_Y s;
     sep1 ← re_dash Y.2;
     md ← re_md sep1.2;
     [(Y.1, md)]).

(** [int(text)] for a text of decimal digits with optional leading
    blanks. *)
Fixpoint int_digits (acc : Z) (s : string) : Z :=
  match s with
  | EmptyString => acc
  | String c s' => int_digits (10 * acc + (Z.of_nat (nat_of_ascii c) - 48)) s'
  end.

Fixpoint lstrip (s : string) : string :=
  match s with
  | String c s' => if is_char " " c then lstrip s' else s
  | EmptyString => s
  end.

Definition int_of_str (s : string) : Z := int_digits 0 (lstrip s).

(** The argument is [None] when the caller passes Python's [None]. *)
Definition strptime_Ymd (s : option string) : result date :=
  match s with
  | None => raise TypeError
  | Some s =>
      match re_match_Ymd s with
      | None => raise (ValueError "time data does not match format")
      | Some (Y, (m, d, rest)) =>
          match rest with
          | EmptyString =>
              check_date_fields (int_of_str Y) (int_of_str m) (int_of_str d)
          | String _ _ => raise (ValueError "unconverted data remains")
          end
      end
  end.

(** [datetime.strptime(s, '%Y-%m-%d').date()] *)
Definition date_from_iso (s : option string) : result date :=
  strptime_Ymd s.

(** The ways a month and a day may be written for [strptime] to read
    them back: with two digits, and below ten also with one digit; a day
    below ten also with a blank in place of the first digit. *)
Definition month_forms (m : Z) : list string :=
  format_0d 2 m :: (if (m <? 10)%Z then [str_of_int m] else []).

Definition day_forms (d : Z) : list string :=
  format_0d 2 d
  :: (if (d <? 10)%Z then [str_of_int d; " " +:+ str_of_int d] else []).

(** The texts that denote a date with a four-digit year. *)
Definition accepted_texts (d : date) : list string :=
  M ← month_forms (month d);
  D ← day_forms (day d);
  [format_0d 4 (year d) +:+ "-" +:+ M +:+ "-" +:+ D].

(** The ISO-8601 calendar form [YYYY-MM-DD]: four digits, a dash, two
    digits, a dash, two digits. *)
Definition iso_shape (s : string) : bool :=
  match re_chars [is_digit; is_digit; is_digit; is_digit; is_char "-";
                  is_digit; is_digit; is_char "-"; is_digit; is_digit] s with
  | [(_, EmptyString)] => true
  | _ => false
  end.

(** ** The [csv] module *)

Definition delimiter : ascii := ","%char.
Definition quotechar : ascii := "034"%char.
Definition LF : ascii := "010"%char.
Definition CR : ascii := "013"%char.

(** *** Writing with [dialect='unix']

    The unix dialect quotes every field ([QUOTE_ALL]), doubles a quote
    character inside a field and ends a record with a line feed. *)

Definition join_append_data (field : string) : list ascii :=
  c ← list_ascii_of_string field;
  if decide (c = quotechar) then [quotechar; c] else [c].

Fixpoint join_fields (num_fields : nat) (fields : list string) : list ascii :=
  match fields with
  | [] => []
  | f :: fs =>
      match num_fields with O => [] | S _ => [delimiter] end
      ++ [quotechar] ++ join_append_data f ++ [quotechar]
      ++ join_fields (S num_fields) fs
  end.

(** The text that [writer.writerow] hands to the file's [write]. *)
Definition writer_writerow (fields : list string) : list ascii :=
  join_fields 0 fields ++ [LF].

(** The values that [DayEntry.to_dict] puts in a row. *)
Inductive pyval : Type :=
| PyDate (d : date)
| PyStr (s : string)
| PyNone.

(** The text the writer puts out for a value: a [str] as it is, [None]
    as the empty text, anything else through [str()]. *)
Definition py_str (v : pyval) : string :=
  match v with
  | PyDate d => isoformat d
  | PyStr s => s
  | PyNone => EmptyString
  end.

Definition to_dict (e : DayEntry) : gmap string pyval :=
  <["date" := PyDate (entry_date e)]>
    (<["mood" := PyStr (DayMood.name (entry_mood e))]>
       (<["comment" := from_option PyStr PyNone (entry_comment e)]> ∅)).

Definition fieldnames : list string := ["date"; "mood"; "comment"].

(** [DictWriter._dict_to_list] with [extrasaction='raise'] and
    [restval=''] *)
Definition DictWriter_dict_to_list (fns : list string)
    (rowdict : gmap string pyval) : result (list pyval) :=
  if decide (dom rowdict ⊆ (list_to_set fns : gset string)) then
    ret ((fun key => default (PyStr EmptyString) (rowdict !! key)) <$> fns)
  else raise (ValueError "dict contains fields not in fieldnames").

Definition DictWriter_writerow (fns : list string)
    (rowdict : gmap string pyval) : result (list ascii) :=
  row <~ DictWriter_dict_to_list fns rowdict ;;
  ret (writer_writerow (py_str <$> row)).

(** [header = dict(zip(self.fieldnames, self.fieldnames))] *)
Definition DictWriter_writeheader (fns : list string) : result (list ascii) :=
  DictWriter_writerow fns
    (foldl (fun d key => <[key := PyStr key]> d) ∅ fns).

(** *** Reading with the default (excel) dialect

    The reader takes the lines of the file one at a time and runs a
    character-level state machine over each, followed by an end-of-line
    mark.  With the excel dialect there is no escape character, quoting
    is minimal, quotes are doubled, initial blanks are kept and the
    parser is not strict; the escape states of the machine are therefore
    unreachable and left out. *)

(** Iterating a text file opened with [newline='']: a line ends after a
    line feed, after a carriage return, or after the two in a row, and
    keeps its ending. *)
Fixpoint readlines (s : list ascii) : list (list ascii) :=
  match s with
  | [] => []
  | c :: s' =>
      let rest := readlines s' in
      let same_line :=
        match rest with
        | [] => [[c]]
        | l :: ls => (c :: l) :: ls
        end in
      if decide (c = LF) then [c] :: rest
      else if decide (c = CR) then
        match s' with
        | c' :: _ => if decide (c' = LF) then same_line else [c] :: rest
        | [] => [c] :: rest
        end
      else same_line
  end.

Inductive ParserState : Type :=
| START_RECORD | START_FIELD | IN_FIELD | IN_QUOTED_FIELD
| QUOTE_IN_QUOTED_FIELD | EAT_CRNL.

Global Instance ParserState_eq_dec : EqDecision ParserState.
Proof. solve_decision. Defined.

(** The reader object: the parser state, the fields of the record read
    so far, and the buffer of the current field with its length.  The
    buffer holds the most recent character first. *)
Record ReaderObj : Type := mkReader {
  state : ParserState;
  fields : list string;
  field : list ascii;
  field_len : N
}.

Definition set_state (st : ParserState) (r : ReaderObj) : ReaderObj :=
  mkReader st (fields r) (field r) (field_len r).

(** [csv.field_size_limit()] *)
Definition field_limit : N := 131072.

Definition parse_reset : ReaderObj := mkReader START_RECORD [] [] 0.

Definition parse_save_field (r : ReaderObj) : ReaderObj :=
  mkReader (state r)
           (fields r ++ [string_of_list_ascii (rev (field r))]) [] 0.

Definition parse_add_char (r : ReaderObj) (c : ascii) : result ReaderObj :=
  if (field_limit <=? field_len r)%N then
    raise (csv_Error "field larger than field limit (131072)")
  else ret (mkReader (state r) (fields r) (c :: field r) (field_len r + 1)).

(** What the machine is fed: a character of the line or the mark at its
    end. *)
Inductive input_char : Type :=
| Ch (c : ascii)
| EOL.

Definition is_newline (c : input_char) : bool :=
  match c with
  | Ch c => bool_decide (c = LF) || bool_decide (c = CR)
  | EOL => false
  end.

Definition after_line_end (c : input_char) : ParserState :=
  match c with EOL => START_RECORD | Ch _ => EAT_CRNL end.

Definition parse_start_field (r : ReaderObj) (c : input_char) : result ReaderObj :=
  match c with
  | EOL => ret (set_state START_RECORD (parse_save_field r))
  | Ch a =>
      if is_newline c then ret (set_state EAT_CRNL (parse_save_field r))
      else if decide (a = quotechar) then ret (set_state IN_QUOTED_FIELD r)
      else if decide (a = delimiter) then ret (parse_save_field r)
      else r' <~ parse_add_char r a ;; ret (set_state IN_FIELD r')
  end.

Definition parse_process_char (r : ReaderObj) (c : input_char) : result ReaderObj :=
  match state r with
  | START_RECORD =>
      match c with
      | EOL => ret r
      | Ch _ =>
          if is_newline c then ret (set_state EAT_CRNL r)
          else parse_start_field (set_state START_FIELD r) c
      end
  | START_FIELD => parse_start_field r c
  | IN_FIELD =>
      match c with
      | EOL => ret (set_state START_RECORD (parse_save_field r))
      | Ch a =>
          if is_newline c then ret (set_state EAT_CRNL (parse_save_field r))
          else if decide (a = delimiter) then
            ret (set_state START_FIELD (parse_save_field r))
          else parse_add_char r a
      end
  | IN_QUOTED_FIELD =>
      match c with
      | EOL => ret r
      | Ch a =>
          if decide (a = quotechar) then ret (set_state QUOTE_IN_QUOTED_FIELD r)
          else parse_add_char r a
      end
  | QUOTE_IN_QUOTED_FIELD =>
      match c with
      | EOL => ret (set_state START_RECORD (parse_save_field r))
      | Ch a =>
          if decide (a = quotechar) then
            r' <~ parse_add_char r a ;; ret (set_state IN_QUOTED_FIELD r')
          else if decide (a = delimiter) then
            ret (set_state START_FIELD (parse_save_field r))
          else if is_newline c then
            ret (set_state EAT_CRNL (parse_save_field r))
          else r' <~ parse_add_char r a ;; ret (set_state IN_FIELD r')
      end
  | EAT_CRNL =>
      match c with
      | EOL => ret (set_state START_RECORD r)
      | Ch _ =>
          if is_newline c then ret r
          else raise (csv_Error "new-line character seen in unquoted field")
      end
  end.

(** The characters of one line. *)
Fixpoint process_chars (r : ReaderObj) (line : list ascii) : result ReaderObj :=
  match line with
  | [] => ret r
  | c :: line' => r' <~ parse_process_char r (Ch c) ;; process_chars r' line'
  end.

Definition process_line (r : ReaderObj) (line : list ascii) : result ReaderObj :=
  r' <~ process_chars r line ;; parse_process_char r' EOL.

(** [for row in reader: s = body(s, row)]: the rows are handed to the
    body as the reader yields them, so an exception of the body and an
    exception of the parser surface in the order of the file.  A record
    ends with the line whose end mark leaves the machine in
    [START_RECORD]; at the end of the input a pending field closes a last
    record. *)
Section for_rows.
Context {S : Type} (body : S -> list string -> result S).

Fixpoint for_rows (r : ReaderObj) (lines : list (list ascii)) (s : S)
  : result S :=
  match lines with
  | [] =>
      if negb (field_len r =? 0)%N || bool_decide (state r = IN_QUOTED_FIELD)
      then body s (fields (parse_save_field r))
      else ret s
  | line :: lines' =>
      r' <~ process_line r line ;;
      if decide (state r' = START_RECORD) then
        s' <~ body s (fields r') ;; for_rows parse_reset lines' s'
      else for_rows r' lines' s
  end.
End for_rows.

(** *** [csv.DictReader] *)

(** A row as [DictReader] yields it.  A column that the row is too short
    for maps to [None]; the surplus fields of a row that is too long go
    under the key [None], which no text key reaches, and are left out. *)
Definition DictReader_row (fns : list string) (row : list string)
  : gmap string (option string) :=
  foldl (fun d key => <[key := None]> d)
        (foldl (fun d kv => <[kv.1 := Some kv.2]> d) ∅ (zip fns row))
        (drop (length row) fns).

(** One step of iterating a [DictReader]: the first row the reader
    yields becomes the field names, an empty row is skipped, any other
    row is turned into a dictionary and handed to [f]. *)
Definition DictReader_body {A : Type} (f : gmap string (option string) -> result A)
    (st : option (list string) * list A) (row : list string)
  : result (option (list string) * list A) :=
  match st.1 with
  | None => ret (Some row, st.2)
  | Some fns =>
      match row with
      | [] => ret st
      | _ :: _ => x <~ f (DictReader_row fns row) ;; ret (Some fns, st.2 ++ [x])
      end
  end.

(** [[f(row) for row in csv.DictReader(csvfile)]] over the characters of
    the file. *)
Definition DictReader_comprehension {A : Type}
    (f : gmap string (option string) -> result A) (content : list ascii)
  : result (list A) :=
  st <~ for_rows (DictReader_body f) parse_reset (readlines content) (None, []) ;;
  ret st.2.

(** ** The store *)

Definition dict_getitem (d : gmap string (option string)) (key : string)
  : result (option string) :=
  match d !! key with
  | Some v => ret v
  | None => raise (KeyError (Some key))
  end.

(** [DayEntry(date_from_iso(row['date']), DayMood[row['mood']],
    row['comment'])] *)
Definition entry_of_row (row : gmap string (option string)) : result DayEntry :=
  s <~ dict_getitem row "date" ;;
  d <~ date_from_iso s ;;
  m <~ dict_getitem row "mood" ;;
  mood <~ DayMood.getitem m ;;
  c <~ dict_getitem row "comment" ;;
  ret (mkDayEntry d mood c).

(** The rows of a file's text as entries. *)
Definition parse_days (content : list ascii) : result (list DayEntry) :=
  DictReader_comprehension entry_of_row content.

(** [read_days_from_file]: [open] raises [FileNotFoundError] when there
    is no file at the path.  The [return None] after the [with] block is
    never reached. *)
Definition read_days_from_file (fs : gmap string (list ascii)) (file : string)
  : result (list DayEntry) :=
  match fs !! file with
  | None => raise (FileNotFoundError file)
  | Some content => parse_days content
  end.

(** The text that the save block of the [log] command writes, one
    [write] call per element: the header, then a row per entry. *)
Fixpoint serialize_rows (days : list DayEntry) : result (list (list ascii)) :=
  match days with
  | [] => ret []
  | d :: ds =>
      row <~ DictWriter_writerow fieldnames (to_dict d) ;;
      rows <~ serialize_rows ds ;;
      ret (row :: rows)
  end.

Definition serialize_chunks (days : list DayEntry) : result (list (list ascii)) :=
  header <~ DictWriter_writeheader fieldnames ;;
  rows <~ serialize_rows days ;;
  ret (header :: rows).

Definition serialize (days : list DayEntry) : result (list ascii) :=
  chunks <~ serialize_chunks days ;; ret (concat chunks).

(** ** The file system and the process environment *)

(** What the file system is asked to do, in order. *)
Inductive fs_event : Type :=
| EvCreate (path : string)
| EvWrite (path : string) (data : list ascii)
| EvRename (src dst : string)
| EvCopy (src dst : string)
| EvUnlink (path : string).

(** The files, the log of file-system operations, and the number of
    [write] calls that still succeed before one fails ([None]: they all
    succeed). *)
Record world : Type := mkWorld {
  files : gmap string (list ascii);
  events : list fs_event;
  writes_left : option nat
}.

(** What the process inherits: the directory that [tempfile.gettempdir()]
    answers, the file names that the random name generator proposes, and
    the device that holds each directory. *)
Record environ : Type := mkEnviron {
  tempdir : string;
  candidate_names : list string;
  device : string -> nat
}.

(** A computation on the world that may raise. *)
Definition io (A : Type) : Type := world -> result A * world.

Definition io_ret {A : Type} (a : A) : io A := fun wd => (inr a, wd).
Definition io_raise {A : Type} (e : exn) : io A := fun wd => (inl e, wd).
Definition io_lift {A : Type} (m : result A) : io A := fun wd => (m, wd).

Definition io_bind {A B : Type} (m : io A) (k : A -> io B) : io B :=
  fun wd =>
    match m wd with
    | (inl e, wd') => (inl e, wd')
    | (inr a, wd') => k a wd'
    end.

Notation "x <== m ;; k" := (io_bind m (fun x => k))
  (at level 100, m at next level, right associativity).

Definition slash : ascii := "/"%char.

(** [os.path.dirname]: the text before the last slash, without its
    trailing slashes unless it consists of slashes only. *)
Fixpoint drop_until_slash (rev_p : list ascii) : list ascii :=
  match rev_p with
  | [] => []
  | c :: rest => if decide (c = slash) then rev_p else drop_until_slash rest
  end.

Fixpoint drop_slashes (rev_p : list ascii) : list ascii :=
  match rev_p with
  | [] => []
  | c :: rest => if decide (c = slash) then drop_slashes rest else rev_p
  end.

Definition dirname (p : string) : string :=
  let rhead := drop_until_slash (rev (list_ascii_of_string p)) in
  match drop_slashes rhead with
  | [] => string_of_list_ascii (rev rhead)
  | stripped => string_of_list_ascii (rev stripped)
  end.

Definition path_join (dir name : string) : string :=
  dir +:+ "/" +:+ name.

(** The name that [tempfile] settles on: no [dir] is given, so it is a
    name in [tempfile.gettempdir()], the first proposed one that does not
    exist yet. *)
Definition temp_name (env : environ) (fs : gmap string (list ascii))
  : option string :=
  path_join (tempdir env)
    <$> List.find (fun n => bool_decide (fs !! path_join (tempdir env) n = None))
                  (candidate_names env).

(** [tempfile.NamedTemporaryFile(delete=False, newline='', mode='w')]:
    the file is created empty under that name. *)
Definition NamedTemporaryFile (env : environ) : io string :=
  fun wd =>
    match temp_name env (files wd) with
    | None => (inl FileExistsError, wd)
    | Some name =>
        (inr name,
         mkWorld (<[name := []]> (files wd)) (events wd ++ [EvCreate name])
                 (writes_left wd))
    end.

(** [csvout.write(data)] *)
Definition file_write (name : string) (data : list ascii) : io unit :=
  fun wd =>
    match writes_left wd with
    | Some O => (inl OSError, wd)
    | budget =>
        (inr tt,
         mkWorld (alter (fun old => old ++ data) name (files wd))
                 (events wd ++ [EvWrite name data])
                 (Nat.pred <$> budget))
    end.

Definition os_rename (src dst : string) : io unit :=
  fun wd =>
    match files wd !! src with
    | None => (inl (FileNotFoundError src), wd)
    | Some content =>
        (inr tt,
         mkWorld (<[dst := content]> (delete src (files wd)))
                 (events wd ++ [EvRename src dst]) (writes_left wd))
    end.

Definition copy_file (src dst : string) : io unit :=
  fun wd =>
    match files wd !! src with
    | None => (inl (FileNotFoundError src), wd)
    | Some content =>
        (inr tt,
         mkWorld (<[dst := content]> (files wd))
                 (events wd ++ [EvCopy src dst]) (writes_left wd))
    end.

Definition os_unlink (path : string) : io unit :=
  fun wd =>
    (inr tt,
     mkWorld (delete path (files wd)) (events wd ++ [EvUnlink path])
             (writes_left wd)).

(** [shutil.move(src, dst)] for a destination that is not a directory:
    [os.rename] when both paths are on one device, else a copy followed
    by removing the source. *)
Definition shutil_move (env : environ) (src dst : string) : io unit :=
  if decide (device env (dirname src) = device env (dirname dst)) then
    os_rename src dst
  else
    _ <== copy_file src dst ;; os_unlink src.

(** ** The commands *)

(** [for d in days: writer.writerow(d.to_dict())] *)
Fixpoint write_rows (name : string) (days : list DayEntry) : io unit :=
  match days with
  | [] => io_ret tt
  | d :: ds =>
      row <== io_lift (DictWriter_writerow fieldnames (to_dict d)) ;;
      _ <== file_write name row ;;
      write_rows name ds
  end.

(** The [with tempfile.NamedTemporaryFile(...) as csvout:] block; it
    answers [csvout.name].  The file is not deleted when the block is
    left, whether normally or by an exception. *)
Definition write_temporary (env : environ) (days : list DayEntry) : io string :=
  name <== NamedTemporaryFile env ;;
  header <== io_lift (DictWriter_writeheader fieldnames) ;;
  _ <== file_write name header ;;
  _ <== write_rows name days ;;
  io_ret name.

(** The save block of the [log] command. *)
Definition save (env : environ) (file : string) (days : list DayEntry) : io unit :=
  name <== write_temporary env days ;;
  shutil_move env name file.

(** The [log] command after [enter_daily_data] has answered [day]. *)
Definition log_command (env : environ) (file : string) (day : DayEntry) : io unit :=
  fun wd =>
    let loaded :=
      match read_days_from_file (files wd) file with
      | inl (FileNotFoundError _) => ret []
      | other => other
      end in
    match loaded with
    | inl e => (inl e, wd)
    | inr days => save env file (upsert days day) wd
    end.

(** [display_year]: the matrix goes to [imshow]; the answer is the
    matrix that is shown. *)
Definition display_year (days : list DayEntry) : result grid :=
  build_year_grid days.

(** The [render] command: [None] when nothing is shown, the matrix when
    the year is displayed. *)
Definition render_command (fs : gmap string (list ascii)) (file : string)
  : result (option grid) :=
  days <~ read_days_from_file fs file ;;
  match days with
  | [] => ret None
  | _ :: _ => X <~ display_year days ;; ret (Some X)
  end.

(** ** Finite enumerations used by the proofs about dates *)

Definition all_ascii : list ascii := ascii_of_nat <$> seq 0 256.

(** The characters of a class. *)
Definition chars_of (p : ascii -> bool) : list ascii :=
  List.filter p all_ascii.

(** The texts that a sequence of character classes matches. *)
Fixpoint texts_of (classes : list (ascii -> bool)) : list string :=
  match classes with
  | [] => [EmptyString]
  | p :: ps => c ← chars_of p; t ← texts_of ps; [String c t]
  end.

Definition year_texts : list string :=
  texts_of [is_digit; is_digit; is_digit; is_digit].

Definition month_texts : list string :=
  texts_of [is_char "1"; in_range "0" "2"]
  ++ texts_of [is_char "0"; in_range "1" "9"]
  ++ texts_of [in_range "1" "9"].

Definition day_texts : list string :=
  texts_of [is_char "3"; in_range "0" "1"]
  ++ texts_of [in_range "1" "2"; is_digit]
  ++ texts_of [is_char "0"; in_range "1" "9"]
  ++ texts_of [in_range "1" "9"]
  ++ texts_of [is_char " "; in_range "1" "9"].

(** The year [y] is written with four digits that read back as [y]. *)
Definition year_ok (y : Z) : bool :=
  match format_0d 4 y with
  | String a (String b (String c (String d EmptyString))) =>
      is_digit a && is_digit b && is_digit c && is_digit d
      && (int_of_str (format_0d 4 y) =? y)%Z
  | _ => false
  end.

(** Every way of writing month [m] and day [d] is read back as such. *)
Definition month_day_ok (m d : Z) : Prop :=
  Forall (fun M => Forall (fun D =>
            head (re_md (M +:+ "-" +:+ D)) = Some (M, D, EmptyString)
            /\ int_of_str M = m /\ int_of_str D = d)
          (day_forms d)) (month_forms m).

(** ** Auxiliary notions for the proofs about the store *)

(** The reader after the characters [data] went into the field buffer. *)
Definition add_chars (r : ReaderObj) (data : list ascii) : ReaderObj :=
  mkReader (state r) (fields r) (rev data ++ field r)
           (field_len r + N.of_nat (length data)).

(** A field that the reader's field limit admits. *)
Definition short (f : string) : Prop :=
  (N.of_nat (String.length f) <= field_limit)%N.

(** The texts of the three columns of an entry. *)
Definition entry_fields (e : DayEntry) : list string :=
  [isoformat (entry_date e); DayMood.name (entry_mood e);
   default EmptyString (entry_comment e)].

(** An entry whose comment is a text that the reader's field limit
    admits. *)
Definition storable (e : DayEntry) : Prop :=
  valid_entry e
  /\ exists c, entry_comment e = Some c
               /\ (N.of_nat (String.length c) <= field_limit)%N.

(** A comment of 131073 characters, one more than the reader's field
    limit. *)
Definition long_comment : string :=
  string_of_list_ascii (replicate (N.to_nat 131073) "a"%char).

(** [[f(x) for x in l]] for an [f] that may raise. *)
Fixpoint mapM {A B : Type} (f : A -> result B) (l : list A) : result (list B) :=
  match l with
  | [] => ret []
  | x :: l' => y <~ f x ;; ys <~ mapM f l' ;; ret (y :: ys)
  end.

(** A row whose date does not parse or whose mood is not the name of a
    member. *)
Definition bad_row (row : gmap string (option string)) : Prop :=
  (exists v, row !! "date"%string = Some v /\ raises (date_from_iso v))
  \/ (exists v, row !! "mood"%string = Some v /\ raises (DayMood.getitem v)).

(** The record that the writer puts out for an entry. *)
Definition row_text (e : DayEntry) : list ascii :=
  writer_writerow (entry_fields e).

(** Whether the [write] calls that still succeed cover [n] calls, how
    many of [n] calls succeed, and what is left after [n] of them. *)
Definition covers (budget : option nat) (n : nat) : bool :=
  match budget with
  | None => true
  | Some k => (n <=? k)%nat
  end.

Definition writes_done (budget : option nat) (n : nat) : nat :=
  match budget with
  | None => n
  | Some k => Nat.min k n
  end.

Definition budget_after (budget : option nat) (n : nat) : option nat :=
  (fun k => (k - n)%nat) <$> budget.

(** The operations of [shutil.move]. *)
Definition move_events (env : environ) (src dst : string) : list fs_event :=
  if decide (device env (dirname src) = device env (dirname dst)) then
    [EvRename src dst]
  else [EvCopy src dst; EvUnlink src].

(** A process whose temporary directory is [/tmp], on another device
    than the working directory, and a store in the working directory. *)
Definition env0 : environ :=
  mkEnviron "/tmp" ["tmpk3v9x2qa"]
            (fun dir => if String.eqb dir "/tmp" then 1%nat else 0%nat).

Definition store0 : list ascii :=
  list_ascii_of_string "date,mood,comment" ++ [LF]
  ++ list_ascii_of_string "2019-01-14,amazing,great day!" ++ [LF].

Definition world0 : world :=
  mkWorld {[ "year_in_pixels.csv"%string := store0 ]} [] None.

Definition day0 : DayEntry :=
  mkDayEntry (mkdate 2019 1 15) tired (Some "long day"%string).

(** A store whose second row names a mood that is no member. *)
Definition store_weird : list ascii :=
  list_ascii_of_string "date,mood,comment" ++ [LF]
  ++ list_ascii_of_string "2019-01-14,amazing,great day!" ++ [LF]
  ++ list_ascii_of_string "2019-01-15,weird,odd day" ++ [LF].

(** A list with an element in it is not the empty list. *)
Ltac nonempty :=
  let H := fresh in
  intros H; apply (f_equal length) in H;
  rewrite ?length_app in H; simpl in H; lia.

(** * Further notions: the rest of the script and of the store *)

(** Two entries that differ at most in the year and in the comment. *)
Definition same_pixel (a b : DayEntry) : Prop :=
  day (entry_date a) = day (entry_date b)
  /\ month (entry_date a) = month (entry_date b)
  /\ entry_mood a = entry_mood b.

(** The book-keeping of the reader is sound: the length it keeps is the
    length of the buffer, the buffer is within the field limit, and so
    are the fields of the record read so far. *)
Definition reader_ok (r : ReaderObj) : Prop :=
  field_len r = N.of_nat (length (field r))
  /\ (field_len r <= field_limit)%N
  /\ Forall short (fields r).

(** Where the machine is when a line begins. *)
Definition at_line_start (r : ReaderObj) : Prop :=
  state r = START_RECORD \/ state r = IN_QUOTED_FIELD.

Definition not_newline (c : ascii) : Prop := c <> LF /\ c <> CR.

(** A line as file iteration yields it: characters that end no line,
    then at most one line ending. *)
Definition line_ok (l : list ascii) : Prop :=
  exists body ending,
    l = body ++ ending
    /\ Forall not_newline body
    /\ (ending = [] \/ ending = [LF] \/ ending = [CR] \/ ending = [CR; LF]).

(** The one error of the reader that a file can provoke. *)
Definition limit_error : exn :=
  csv_Error "field larger than field limit (131072)".

(** [list(csv.reader(f))]: the records of a text. *)
Definition all_rows (text : list ascii) : result (list (list string)) :=
  for_rows (fun acc row => ret (acc ++ [row])) parse_reset (readlines text) [].

(** A value of a row: absent, or a text within the field limit. *)
Definition short_value (v : option string) : Prop :=
  match v with
  | Some s => short s
  | None => True
  end.

(** An entry as a store can hold it: a calendar date and a comment that
    is absent or within the field limit. *)
Definition loadable (e : DayEntry) : Prop :=
  valid_entry e /\ short_value (entry_comment e).

(** What the store makes of an entry: the writer puts out an absent
    comment as the empty text, and the reader answers the empty text. *)
Definition normalize (e : DayEntry) : DayEntry :=
  mkDayEntry (entry_date e) (entry_mood e)
             (Some (default EmptyString (entry_comment e))).

(** The exceptions of turning a row into an entry. *)
Definition row_error (e : exn) : Prop :=
  e = TypeError \/ (exists msg, e = ValueError msg) \/ (exists k, e = KeyError k).

(** ** The console *)

(** How an interaction can end other than by answering. *)
Inductive interaction_end : Type :=
| SystemExit (code : Z)
| EOFError
| Raised (e : exn).

(** The lines that are still to be typed and the texts written so
    far. *)
Record console : Type := mkConsole {
  stdin : list string;
  stdout : list string
}.

Definition interact (A : Type) : Type :=
  console -> (interaction_end + A) * console.

Definition interact_ret {A : Type} (a : A) : interact A :=
  fun con => (inr a, con).

Definition interact_bind {A B : Type} (m : interact A) (k : A -> interact B)
  : interact B :=
  fun con =>
    match m con with
    | (inl stop, con') => (inl stop, con')
    | (inr a, con') => k a con'
    end.

Notation "x <-- m ;; k" := (interact_bind m (fun x => k))
  (at level 100, m at next level, right associativity).

Definition newline : string := String LF EmptyString.

(** [print(text)] *)
Definition print (text : string) : interact unit :=
  fun con => (inr tt, mkConsole (stdin con) (stdout con ++ [text +:+ newline])).

(** [input(prompt)]: the prompt is written and a line is read without
    its line ending; at the end of the input [EOFError] is raised. *)
Definition input (prompt : string) : interact string :=
  fun con =>
    match stdin con with
    | [] => (inl EOFError, mkConsole [] (stdout con ++ [prompt]))
    | line :: rest => (inr line, mkConsole rest (stdout con ++ [prompt]))
    end.

(** [exit(status)] *)
Definition exit {A : Type} (status : Z) : interact A :=
  fun con => (inl (SystemExit status), con).

(** ['"{}"'.format(s)] *)
Definition in_quotes (s : string) : string :=
  String quotechar (s +:+ String quotechar EmptyString).

(** ['{:<width}'.format(s)] *)
Definition ljust (width : nat) (s : string) : string :=
  s +:+ string_of_list_ascii (replicate (width - String.length s) " "%char).

(** [for m in DayMood: print('  {:<10}{}'.format(m.name, m.desc))] *)
Fixpoint print_moods (ms : list DayMood) : interact unit :=
  match ms with
  | [] => interact_ret tt
  | m :: ms' =>
      _ <-- print ("  " +:+ ljust 10 (DayMood.name m) +:+ DayMood.desc m) ;;
      print_moods ms'
  end.

(** [enter_daily_data]; [today1] and [today2] are what the two calls of
    [date.today()] answer. *)
Definition enter_daily_data (today1 today2 : date) : interact DayEntry :=
  _ <-- print ("Which date do you want to log for? [" +:+ isoformat today1 +:+ "]") ;;
  s <-- input "> " ;;
  d <-- match s with
        | EmptyString => interact_ret today1
        | String _ _ =>
            match date_from_iso (Some s) with
            | inr d => interact_ret d
            | inl (ValueError _) =>
                _ <-- print ("Invalid date: " +:+ in_quotes s) ;; exit 1
            | inl e => fun con => (inl (Raised e), con)
            end
        end ;;
  _ <-- print ("How was your mood "
               +:+ (if decide (d = today2) then "today" else "on " +:+ isoformat d)
               +:+ "? Please enter one of the following:") ;;
  _ <-- print_moods DayMood.members ;;
  s <-- input "> " ;;
  mood <-- match DayMood.getitem (Some s) with
           | inr m => interact_ret m
           | inl (KeyError _) =>
               _ <-- print ("Invalid mood string: " +:+ in_quotes s) ;; exit 1
           | inl e => fun con => (inl (Raised e), con)
           end ;;
  _ <-- print ("If you like, you can enter a comment how this was a "
               +:+ DayMood.name mood +:+ " day.") ;;
  comment <-- input "> " ;;
  interact_ret (mkDayEntry d mood (Some comment)).

(** [DayEntry.__str__]: a comment that is absent or empty is left
    out. *)
Definition DayEntry_str (e : DayEntry) : string :=
  match entry_comment e with
  | Some (String c rest) =>
      isoformat (entry_date e) +:+ ": " +:+ DayMood.desc (entry_mood e)
      +:+ " (" +:+ String c rest +:+ ")"
  | _ => isoformat (entry_date e) +:+ ": " +:+ DayMood.desc (entry_mood e)
  end.

(** * Properties *)

(** ** Worked examples for the date functions *)

Example date_from_iso_doctest :
  date_from_iso (Some "2019-01-14") = inr (mkdate 2019 1 14).
Proof. reflexivity. Qed.

Example isoformat_ex1 : isoformat (mkdate 2019 1 14) = "2019-01-14".
Proof. reflexivity. Qed.

Example isoformat_ex2 : isoformat (mkdate 1 12 31) = "0001-12-31".
Proof. reflexivity. Qed.

Example date_from_iso_ex3 :
  date_from_iso (Some "2019-1-4") = inr (mkdate 2019 1 4)
  /\ date_from_iso (Some "2019-01- 4") = inr (mkdate 2019 1 4)
  /\ raises (date_from_iso (Some "2019-13-40"))
  /\ raises (date_from_iso (Some "2019-02-30"))
  /\ raises (date_from_iso (Some "2019-01-311"))
  /\ raises (date_from_iso (Some "0000-01-01"))
  /\ raises (date_from_iso (Some "2019-010-4")).
Proof. repeat split; try reflexivity; eexists; reflexivity. Qed.

(** ** Upsert *)

Section upsert.
Implicit Types (E S : list DayEntry) (e d : DayEntry).

Lemma upsert_unfold E e : upsert E e = filter (other_date e) E ++ [e].
Proof. reflexivity. Qed.

Lemma filter_other_date_all E e :
  Forall (other_date e) (filter (other_date e) E).
Proof.
  apply Forall_forall. intros d Hd.
  apply list_elem_of_filter in Hd. tauto.
Qed.

Lemma filter_keeps_all E e :
  Forall (other_date e) E -> filter (other_date e) E = E.
Proof.
  induction 1 as [|d E Hd _ IH]; [reflexivity|].
  rewrite filter_cons_True by assumption. by rewrite IH.
Qed.

(** Any selection of entries of [E] on other dates, taken in the order
    of [E], is a selection of the survivors. *)
Lemma sublist_into_filter S E e :
  sublist S E -> Forall (other_date e) S -> sublist S (filter (other_date e) E).
Proof.
  induction 1 as [|d S E _ IH|d S E _ IH]; intros HS.
  - constructor.
  - inversion HS; subst.
    rewrite filter_cons_True by assumption. constructor. by apply IH.
  - rewrite filter_cons. destruct (decide (other_date e d)).
    + apply sublist_cons. by apply IH.
    + by apply IH.
Qed.

Lemma same_date_count E e :
  length (filter (fun d => entry_date d = entry_date e) (upsert E e)) = 1%nat.
Proof.
  rewrite upsert_unfold, filter_app, length_app.
  rewrite filter_cons_True by reflexivity. simpl.
  replace (filter (fun d => entry_date d = entry_date e) (filter (other_date e) E))
    with (@nil DayEntry); [reflexivity|].
  symmetry. induction E as [|d E IH]; [reflexivity|].
  rewrite (filter_cons (other_date e)).
  destruct (decide (other_date e d)) as [Hd|Hd]; [|exact IH].
  rewrite filter_cons_False by exact Hd. exact IH.
Qed.
End upsert.

(** C3.  [upsert E e] is a list [S ++ [e]] where [S] consists of the
    entries of [E] in their original relative order, none of them on the
    date of [e], and [S] misses no entry of [E] on another date: every
    selection of such entries, in the order of [E], is a selection of
    [S].  Exactly one element of the result is on the date of [e].  The
    operation is a function of its two arguments only. *)
Theorem upsert_removes_and_appends (E : list DayEntry) (e : DayEntry) :
  exists S : list DayEntry,
    upsert E e = S ++ [e]
    /\ sublist S E
    /\ Forall (fun d => entry_date d <> entry_date e) S
    /\ (forall S' : list DayEntry,
          sublist S' E ->
          Forall (fun d => entry_date d <> entry_date e) S' ->
          sublist S' S)
    /\ length (filter (fun d => entry_date d = entry_date e) (upsert E e)) = 1%nat.
Proof.
  exists (filter (other_date e) E). split; [reflexivity|].
  split; [apply sublist_filter|].
  split; [apply filter_other_date_all|].
  split; [intros S'; apply sublist_into_filter|].
  apply same_date_count.
Qed.

(** C8.  Upserting the same entry twice gives what upserting it once
    gives. *)
Theorem upsert_idempotent (E : list DayEntry) (e : DayEntry) :
  upsert (upsert E e) e = upsert E e.
Proof.
  rewrite (upsert_unfold (upsert E e)), upsert_unfold, filter_app.
  rewrite filter_cons_False by (intros H; apply H; reflexivity).
  rewrite filter_nil, app_nil_r.
  by rewrite (filter_keeps_all _ _ (filter_other_date_all E e)).
Qed.

(** ** Dates *)

Lemma days_in_month_le y m : (days_in_month y m <= 31)%Z.
Proof.
  unfold days_in_month.
  repeat match goal with |- context [if ?b then _ else _] => destruct b end; lia.
Qed.

Lemma check_date_fields_inr y m d dt :
  check_date_fields y m d = inr dt ->
  dt = mkdate y m d
  /\ (1 <= y <= 9999)%Z /\ (1 <= m <= 12)%Z /\ (1 <= d <= days_in_month y m)%Z.
Proof.
  unfold check_date_fields.
  destruct (negb _) eqn:Hy; [discriminate|].
  destruct (negb ((1 <=? m)%Z && _)) eqn:Hm; [discriminate|].
  destruct (negb ((1 <=? d)%Z && _)) eqn:Hd; [discriminate|].
  intros [= <-].
  apply negb_false_iff in Hy, Hm, Hd.
  apply andb_true_iff in Hy, Hm, Hd.
  rewrite !Z.leb_le in Hy, Hm, Hd. split; [reflexivity | lia].
Qed.

Lemma check_date_fields_ok y m d :
  (1 <= y <= 9999)%Z -> (1 <= m <= 12)%Z -> (1 <= d <= days_in_month y m)%Z ->
  check_date_fields y m d = inr (mkdate y m d).
Proof.
  intros Hy Hm Hd. unfold check_date_fields.
  replace ((1 <=? y)%Z && (y <=? 9999)%Z) with true
    by (symmetry; apply andb_true_iff; rewrite !Z.leb_le; lia).
  replace ((1 <=? m)%Z && (m <=? 12)%Z) with true
    by (symmetry; apply andb_true_iff; rewrite !Z.leb_le; lia).
  replace ((1 <=? d)%Z && (d <=? days_in_month y m)%Z) with true
    by (symmetry; apply andb_true_iff; rewrite !Z.leb_le; lia).
  reflexivity.
Qed.

Lemma check_date_fields_valid y m d dt :
  check_date_fields y m d = inr dt -> valid_date dt.
Proof.
  intros H. destruct (check_date_fields_inr _ _ _ _ H) as (-> & ? & ? & ?).
  unfold valid_date. simpl. by apply check_date_fields_ok.
Qed.

Lemma valid_date_fields d :
  valid_date d ->
  (1 <= year d <= 9999)%Z /\ (1 <= month d <= 12)%Z
  /\ (1 <= day d <= days_in_month (year d) (month d))%Z.
Proof.
  intros H. apply check_date_fields_inr in H. tauto.
Qed.

Lemma valid_date_indexable d : valid_date d -> grid_indexable d.
Proof.
  intros H. apply valid_date_fields in H.
  pose proof (days_in_month_le (year d) (month d)).
  unfold grid_indexable. lia.
Qed.

Lemma date_from_iso_valid s d : date_from_iso s = inr d -> valid_date d.
Proof.
  unfold date_from_iso, strptime_Ymd.
  destruct s as [s|]; [|discriminate].
  destruct (re_match_Ymd s) as [[Y [[m dd] rest]]|]; [|discriminate].
  destruct rest; [|discriminate].
  apply check_date_fields_valid.
Qed.

(** ** The year grid *)

Lemma blank_grid_replicate : blank_grid = replicate h (replicate w black).
Proof. reflexivity. Qed.

Lemma blank_grid_shaped : shaped blank_grid.
Proof.
  rewrite blank_grid_replicate. split; [apply length_replicate|].
  apply Forall_replicate, length_replicate.
Qed.

Lemma blank_grid_cell i j :
  (i < h)%nat -> (j < w)%nat -> cell blank_grid i j = Some black.
Proof.
  intros Hi Hj. unfold cell. rewrite blank_grid_replicate.
  rewrite lookup_replicate_2 by assumption.
  exact (lookup_replicate_2 _ _ _ Hj).
Qed.

Lemma norm_index_in_range len i :
  (0 <= i < Z.of_nat len)%Z -> norm_index len i = Some (Z.to_nat i).
Proof. intros H. unfold norm_index. by rewrite decide_True. Qed.

Section set_pixel.
Context (X : grid) (d : DayEntry).
Hypothesis HX : shaped X.
Hypothesis Hd : grid_indexable (entry_date d).

Let n : nat := Z.to_nat (day (entry_date d) - 1).
Let k : nat := Z.to_nat (month (entry_date d) - 1).

Lemma set_pixel_row : exists row, X !! n = Some row /\ length row = w.
Proof using HX Hd.
  destruct HX as [Hlen Hrows], Hd as [Hday _].
  destruct (lookup_lt_is_Some_2 X n) as [row Hrow].
  { rewrite Hlen. unfold n, h. lia. }
  exists row. split; [assumption|].
  by apply (Forall_lookup_1 _ _ _ _ Hrows Hrow).
Qed.

Lemma set_pixel_inr :
  exists row, X !! n = Some row
    /\ set_pixel X d
       = inr (<[n := <[k := DayMood.color (entry_mood d)]> row]> X).
Proof using HX Hd.
  destruct set_pixel_row as (row & Hrow & Hlen).
  exists row. split; [assumption|].
  destruct HX as [HlenX _], Hd as [Hday Hmonth].
  unfold set_pixel, list_getitem, list_setitem.
  rewrite norm_index_in_range by (rewrite HlenX; unfold h; lia).
  simpl. fold n. rewrite Hrow. simpl.
  rewrite norm_index_in_range by (rewrite Hlen; unfold w; lia).
  reflexivity.
Qed.

Lemma set_pixel_shaped X' : set_pixel X d = inr X' -> shaped X'.
Proof using HX Hd.
  destruct set_pixel_inr as (row & Hrow & ->). intros [= <-].
  destruct HX as [Hlen Hrows]. split.
  - by rewrite length_insert.
  - apply Forall_insert; [assumption|].
    rewrite length_insert.
    by apply (Forall_lookup_1 _ _ _ _ Hrows Hrow).
Qed.

Lemma set_pixel_cell X' i j :
  set_pixel X d = inr X' -> (i < h)%nat -> (j < w)%nat ->
  cell X' i j
  = if decide (on_cell i j d) then Some (DayMood.color (entry_mood d))
    else cell X i j.
Proof using HX Hd.
  destruct set_pixel_inr as (row & Hrow & ->). intros [= <-] Hi Hj.
  destruct set_pixel_row as (row' & Hrow' & Hlen).
  assert (row' = row) as -> by congruence.
  destruct HX as [HlenX _], Hd as [Hday Hmonth].
  unfold cell, on_cell.
  destruct (decide (i = n)) as [->|Hin].
  - rewrite list_lookup_insert_eq by (rewrite HlenX; unfold n, h; lia).
    simpl. rewrite Hrow. simpl.
    destruct (decide (j = k)) as [->|Hjk].
    + rewrite list_lookup_insert_eq by (rewrite Hlen; unfold k, w; lia).
      rewrite decide_True; [reflexivity|]. unfold n, k. lia.
    + rewrite list_lookup_insert_ne by congruence.
      rewrite decide_False; [reflexivity|]. unfold n, k in *. lia.
  - rewrite list_lookup_insert_ne by congruence.
    rewrite decide_False; [reflexivity|]. unfold n in *. lia.
Qed.
End set_pixel.

Lemma last_filter_cons {A} (P : A -> Prop) `{!forall x, Decision (P x)} x l :
  last (filter P (x :: l))
  = match last (filter P l) with
    | Some y => Some y
    | None => if decide (P x) then Some x else None
    end.
Proof.
  rewrite filter_cons. destruct (decide (P x)); [|by destruct (last _)].
  rewrite last_cons. by destruct (last _).
Qed.

Lemma fill_grid_cells days :
  forall X, shaped X -> Forall (fun e => grid_indexable (entry_date e)) days ->
  exists X', fill_grid X days = inr X' /\ shaped X'
    /\ forall i j, (i < h)%nat -> (j < w)%nat ->
       cell X' i j
       = match last (filter (on_cell i j) days) with
         | Some e => Some (DayMood.color (entry_mood e))
         | None => cell X i j
         end.
Proof.
  induction days as [|d ds IH]; intros X HX Hall.
  - exists X. repeat split; try apply HX. 
  - inversion Hall as [|? ? Hd Hds]; subst.
    destruct (set_pixel_inr X d HX Hd) as (row & _ & HX1).
    pose proof (set_pixel_shaped X d HX Hd _ HX1) as Hshaped.
    destruct (IH _ Hshaped Hds) as (X' & Hfill & HX' & Hcells).
    exists X'. split; [simpl; rewrite HX1; exact Hfill|].
    split; [assumption|]. intros i j Hi Hj.
    rewrite (Hcells i j Hi Hj), last_filter_cons.
    destruct (last (filter (on_cell i j) ds)); [reflexivity|].
    rewrite (set_pixel_cell X d HX Hd _ i j HX1 Hi Hj).
    by destruct (decide (on_cell i j d)).
Qed.

Lemma valid_entries_indexable days :
  Forall valid_entry days -> Forall (fun e => grid_indexable (entry_date e)) days.
Proof.
  intros H. eapply Forall_impl; [exact H|].
  intros e. apply valid_date_indexable.
Qed.

Lemma painted_single e i j :
  painted [e] i j
  = if decide (on_cell i j e) then DayMood.color (entry_mood e) else black.
Proof.
  unfold painted. rewrite filter_cons, filter_nil.
  by destruct (decide (on_cell i j e)).
Qed.

(** C6.  For entries that hold calendar dates, [build_year_grid] answers
    a matrix of 31 rows of 12 cells each.  The cell in row [i], column
    [j] shows the mood colour of the last entry whose day of month is
    [i + 1] and whose month is [j + 1], and black when there is no such
    entry.  For no entries the matrix is black throughout; for the single
    entry of 2019-01-14 with mood amazing the cell [13][0] has the
    colour of amazing and every other cell is black. *)
Theorem build_year_grid_cells (days : list DayEntry) :
  Forall valid_entry days ->
  exists X : grid,
    build_year_grid days = inr X
    /\ length X = 31%nat
    /\ Forall (fun row => length row = 12%nat) X
    /\ (forall i j, (i < 31)%nat -> (j < 12)%nat ->
          cell X i j = Some (painted days i j))
    /\ (days = [] -> X = replicate 31 (replicate 12 black))
    /\ (forall c, days = [mkDayEntry (mkdate 2019 1 14) amazing c] ->
          cell X 13 0 = Some (DayMood.color amazing)
          /\ forall i j, (i < 31)%nat -> (j < 12)%nat -> (i, j) <> (13%nat, 0%nat) ->
             cell X i j = Some black).
Proof.
  intros Hvalid.
  destruct (fill_grid_cells days blank_grid blank_grid_shaped
              (valid_entries_indexable _ Hvalid)) as (X & HX & [Hlen Hrows] & Hcells).
  assert (Hpainted : forall i j, (i < 31)%nat -> (j < 12)%nat ->
            cell X i j = Some (painted days i j)).
  { intros i j Hi Hj. rewrite (Hcells i j Hi Hj). unfold painted.
    destruct (last _); [reflexivity|]. by apply blank_grid_cell. }
  exists X. split; [exact HX|]. split; [exact Hlen|]. split; [exact Hrows|].
  split; [exact Hpainted|]. split.
  - intros ->. unfold build_year_grid in HX. simpl in HX.
    injection HX as <-. apply blank_grid_replicate.
  - intros c ->. split.
    + rewrite Hpainted by lia. rewrite painted_single.
      rewrite decide_True; [reflexivity|]. unfold on_cell. simpl. lia.
    + intros i j Hi Hj Hij. rewrite Hpainted by assumption.
      rewrite painted_single. rewrite decide_False; [reflexivity|].
      unfold on_cell. simpl. intros [? ?]. apply Hij. f_equal; lia.
Qed.

Lemma build_year_grid_cells_witness :
  Forall valid_entry
    [mkDayEntry (mkdate 2019 1 14) amazing (Some "great day!");
     mkDayEntry (mkdate 2020 1 14) sad None]
  /\ exists X : grid,
       build_year_grid
         [mkDayEntry (mkdate 2019 1 14) amazing (Some "great day!");
          mkDayEntry (mkdate 2020 1 14) sad None] = inr X
       /\ length X = 31%nat
       /\ cell X 13 0 = Some navy.
Proof.
  assert (Hvalid : Forall valid_entry
            [mkDayEntry (mkdate 2019 1 14) amazing (Some "great day!");
             mkDayEntry (mkdate 2020 1 14) sad None]).
  { repeat constructor. }
  split; [exact Hvalid|].
  destruct (build_year_grid_cells _ Hvalid) as (X & HX & Hlen & _ & Hcells & _).
  exists X. split; [exact HX|]. split; [exact Hlen|].
  rewrite (Hcells 13%nat 0%nat) by lia. reflexivity.
Defined.

(** C9.  For entries whose day of month is between 1 and 31 and whose
    month is between 1 and 12, every cell write of [build_year_grid] is
    within the 31 by 12 matrix: the row index [day - 1] and the column
    index [month - 1] are within range, the write on any matrix of that
    shape succeeds and keeps the shape, and the loop as a whole raises
    nothing.  Every date that satisfies the checks of the date type, and
    so every date that [date_from_iso] answers, has such a day and
    month. *)
Theorem grid_writes_in_bounds (days : list DayEntry) :
  Forall (fun e => grid_indexable (entry_date e)) days ->
  Forall (fun e =>
            (0 <= day (entry_date e) - 1 < Z.of_nat h)%Z
            /\ (0 <= month (entry_date e) - 1 < Z.of_nat w)%Z
            /\ forall X : grid, shaped X ->
                 exists X', set_pixel X e = inr X' /\ shaped X') days
  /\ (forall e, build_year_grid days <> inl e)
  /\ (forall d, valid_date d -> grid_indexable d)
  /\ (forall s d, date_from_iso s = inr d -> grid_indexable d).
Proof.
  intros Hall. split; [|split; [|split]].
  - eapply Forall_impl; [exact Hall|]. intros e He. cbv beta in He.
    split; [|split].
    + destruct He. unfold h. lia.
    + destruct He. unfold w. lia.
    + intros X HX. destruct (set_pixel_inr X e HX He) as (row & _ & Hset).
      eexists. split; [exact Hset|].
      by apply (set_pixel_shaped X e HX He).
  - intros e. destruct (fill_grid_cells days blank_grid blank_grid_shaped Hall)
      as (X & HX & _). unfold build_year_grid. rewrite HX. discriminate.
  - apply valid_date_indexable.
  - intros s d Hd. by apply valid_date_indexable, (date_from_iso_valid s).
Qed.

Lemma grid_writes_in_bounds_witness :
  Forall (fun e => grid_indexable (entry_date e))
    [mkDayEntry (mkdate 2019 12 31) tired (Some "late")]
  /\ forall e, build_year_grid [mkDayEntry (mkdate 2019 12 31) tired (Some "late")]
               <> inl e.
Proof.
  assert (Hall : Forall (fun e => grid_indexable (entry_date e))
            [mkDayEntry (mkdate 2019 12 31) tired (Some "late")]).
  { repeat constructor; simpl; lia. }
  split; [exact Hall|].
  exact (proj1 (proj2 (grid_writes_in_bounds _ Hall))).
Defined.

(** ** Reading and writing dates as text *)

Lemma append_cons (c : ascii) (s t : string) :
  String c s +:+ t = String c (s +:+ t).
Proof. reflexivity. Qed.

Lemma append_empty_l (t : string) : EmptyString +:+ t = t.
Proof. reflexivity. Qed.

Lemma append_empty_r (s : string) : s +:+ EmptyString = s.
Proof.
  induction s as [|c s IH]; [reflexivity|]. by rewrite append_cons, IH.
Qed.

Lemma append_assoc3 (a b c : string) : (a +:+ b) +:+ c = a +:+ (b +:+ c).
Proof.
  induction a as [|x a IH]; [reflexivity|]. by rewrite !append_cons, IH.
Qed.


Lemma elem_of_all_ascii (c : ascii) : c ∈ all_ascii.
Proof.
  unfold all_ascii. apply list_elem_of_fmap. exists (nat_of_ascii c).
  split; [symmetry; apply ascii_nat_embedding|].
  apply elem_of_seq. pose proof (nat_ascii_bounded c). lia.
Qed.

Lemma elem_of_chars_of (p : ascii -> bool) (c : ascii) :
  p c = true -> c ∈ chars_of p.
Proof.
  intros Hp. apply list_elem_of_In, List.filter_In.
  split; [apply list_elem_of_In, elem_of_all_ascii | exact Hp].
Qed.

(** A match of a sequence of classes splits the text into one of the
    texts of the classes and the rest. *)
Lemma re_chars_elem classes :
  forall s t r, (t, r) ∈ re_chars classes s -> s = t +:+ r /\ t ∈ texts_of classes.
Proof.
  induction classes as [|p ps IH]; intros s t r Hin.
  - apply list_elem_of_singleton in Hin as [= -> ->].
    split; [reflexivity | apply list_elem_of_singleton; reflexivity].
  - simpl in Hin. destruct s as [|c s]; [by apply not_elem_of_nil in Hin|].
    destruct (p c) eqn:Hp; [|by apply not_elem_of_nil in Hin].
    apply list_elem_of_fmap in Hin as ([t' r'] & [= -> ->] & Hin).
    destruct (IH _ _ _ Hin) as [-> Ht']. split; [reflexivity|].
    simpl. apply list_elem_of_bind. exists c.
    split; [|by apply elem_of_chars_of].
    apply list_elem_of_bind. exists t'.
    split; [apply list_elem_of_singleton; reflexivity | exact Ht'].
Qed.

Lemma re_Y_elem s t r : (t, r) ∈ re_Y s -> s = t +:+ r /\ t ∈ year_texts.
Proof. apply re_chars_elem. Qed.

Lemma re_dash_elem s t r : (t, r) ∈ re_dash s -> s = "-" +:+ r.
Proof.
  intros Hin. apply re_chars_elem in Hin as [-> Ht].
  vm_compute in Ht. apply list_elem_of_singleton in Ht as ->. reflexivity.
Qed.

Lemma re_m_elem s t r : (t, r) ∈ re_m s -> s = t +:+ r /\ t ∈ month_texts.
Proof.
  unfold re_m, month_texts. intros H.
  apply elem_of_app in H as [H|H]; [|apply elem_of_app in H as [H|H]];
    apply re_chars_elem in H as [-> H]; (split; [reflexivity|]).
  - apply elem_of_app. left. exact H.
  - apply elem_of_app. right. apply elem_of_app. left. exact H.
  - apply elem_of_app. right. apply elem_of_app. right. exact H.
Qed.

Lemma re_d_elem s t r : (t, r) ∈ re_d s -> s = t +:+ r /\ t ∈ day_texts.
Proof.
  unfold re_d, day_texts. intros H.
  apply elem_of_app in H as [H|H];
    [|apply elem_of_app in H as [H|H];
      [|apply elem_of_app in H as [H|H];
        [|apply elem_of_app in H as [H|H]]]];
    apply re_chars_elem in H as [-> H]; (split; [reflexivity|]).
  - apply elem_of_app. left. exact H.
  - do 1 (apply elem_of_app; right). apply elem_of_app. left. exact H.
  - do 2 (apply elem_of_app; right). apply elem_of_app. left. exact H.
  - do 3 (apply elem_of_app; right). apply elem_of_app. left. exact H.
  - do 4 (apply elem_of_app; right). exact H.
Qed.

Lemma re_match_Ymd_elem s Y M D rest :
  re_match_Ymd s = Some (Y, (M, D, rest)) ->
  s = Y +:+ "-" +:+ M +:+ "-" +:+ D +:+ rest
  /\ Y ∈ year_texts /\ M ∈ month_texts /\ D ∈ day_texts.
Proof.
  unfold re_match_Ymd, re_md. intros Hhead.
  apply head_Some_elem_of in Hhead.
  apply list_elem_of_bind in Hhead as ([Y' r0] & Hhead & HY).
  apply list_elem_of_bind in Hhead as ([x1 r1] & Hhead & H1).
  apply list_elem_of_bind in Hhead as ([[M' D'] r'] & Hhead & Hmd).
  apply list_elem_of_singleton in Hhead as [= <- <- <- <-].
  apply list_elem_of_bind in Hmd as ([M' r2] & Hmd & HM).
  apply list_elem_of_bind in Hmd as ([x2 r3] & Hmd & H2).
  apply list_elem_of_bind in Hmd as ([D' r4] & Hmd & HD).
  apply list_elem_of_singleton in Hmd as [= <- <- <-].
  simpl in *.
  apply re_Y_elem in HY as [-> HY]. apply re_dash_elem in H1 as ->.
  apply re_m_elem in HM as [-> HM]. apply re_dash_elem in H2 as ->.
  apply re_d_elem in HD as [-> HD].
  repeat split; try assumption.
Qed.

(** What the enumerations establish. *)
Lemma year_texts_format :
  Forall (fun Y => format_0d 4 (int_of_str Y) = Y) year_texts.
Proof. eapply bool_decide_unpack. vm_compute. exact I. Qed.

Lemma month_texts_forms :
  Forall (fun M => M ∈ month_forms (int_of_str M)) month_texts.
Proof. eapply bool_decide_unpack. vm_compute. exact I. Qed.

Lemma day_texts_forms :
  Forall (fun D => D ∈ day_forms (int_of_str D)) day_texts.
Proof. eapply bool_decide_unpack. vm_compute. exact I. Qed.

Lemma years_ok : forallb year_ok (seqZ 1 9999) = true.
Proof. vm_compute. reflexivity. Qed.

Lemma months_days_ok :
  Forall (fun m => Forall (fun d => month_day_ok m d) (seqZ 1 31)) (seqZ 1 12).
Proof. unfold month_day_ok. eapply bool_decide_unpack. vm_compute. exact I. Qed.

Lemma year_ok_range y : (1 <= y <= 9999)%Z -> year_ok y = true.
Proof.
  intros Hy. apply (proj1 (List.forallb_forall year_ok (seqZ 1 9999)) years_ok).
  apply list_elem_of_In, elem_of_seqZ. lia.
Qed.

Lemma month_day_ok_range m d :
  (1 <= m <= 12)%Z -> (1 <= d <= 31)%Z -> month_day_ok m d.
Proof.
  intros Hm Hd. pose proof months_days_ok as H.
  rewrite Forall_forall in H. specialize (H m).
  rewrite Forall_forall in H. apply H; apply elem_of_seqZ; lia.
Qed.

Lemma head_bind_singleton {A B} (f : A -> B) (l : list A) :
  head (x ← l; [f x]) = f <$> head l.
Proof. by destruct l. Qed.

(** With the year and its dash read, the match goes on with the month
    and the day. *)
Lemma re_match_Ymd_year Y tail :
  (exists a b c d, Y = String a (String b (String c (String d EmptyString)))
     /\ is_digit a = true /\ is_digit b = true
     /\ is_digit c = true /\ is_digit d = true) ->
  re_match_Ymd (Y +:+ "-" +:+ tail) = (fun md => (Y, md)) <$> head (re_md tail).
Proof.
  intros (a & b & c & d & -> & Ha & Hb & Hc & Hd).
  unfold re_match_Ymd, re_Y. rewrite ?append_cons, ?append_empty_l. simpl. rewrite Ha, Hb, Hc, Hd. simpl.
  rewrite !app_nil_r. apply head_bind_singleton.
Qed.

Lemma year_ok_digits y :
  year_ok y = true ->
  int_of_str (format_0d 4 y) = y
  /\ exists a b c d,
       format_0d 4 y = String a (String b (String c (String d EmptyString)))
       /\ is_digit a = true /\ is_digit b = true
       /\ is_digit c = true /\ is_digit d = true.
Proof.
  unfold year_ok.
  destruct (format_0d 4 y) as [|a [|b [|c [|d [|? ?]]]]]; try discriminate.
  intros H. do 4 (apply andb_true_iff in H as [H ?]).
  split; [by apply Z.eqb_eq|]. exists a, b, c, d.
  repeat split; assumption.
Qed.

(** Every accepted text of a valid date is read back as that date. *)
Lemma date_from_iso_accepted d s :
  valid_date d -> s ∈ accepted_texts d -> date_from_iso (Some s) = inr d.
Proof.
  intros Hvalid Hs. pose proof (valid_date_fields d Hvalid) as (Hy & Hm & Hd).
  pose proof (days_in_month_le (year d) (month d)) as Hle.
  unfold accepted_texts in Hs.
  apply list_elem_of_bind in Hs as (M & Hs & HM).
  apply list_elem_of_bind in Hs as (D & Hs & HD).
  apply list_elem_of_singleton in Hs as ->.
  destruct (year_ok_digits _ (year_ok_range _ Hy)) as (HintY & Hdigits).
  assert (Hmd : month_day_ok (month d) (day d)) by (apply month_day_ok_range; lia).
  unfold month_day_ok in Hmd. rewrite Forall_forall in Hmd.
  specialize (Hmd M HM). rewrite Forall_forall in Hmd.
  destruct (Hmd D HD) as (Hhead & HintM & HintD).
  unfold date_from_iso, strptime_Ymd.
  rewrite (re_match_Ymd_year _ _ Hdigits), Hhead. simpl.
  rewrite HintY, HintM, HintD. exact Hvalid.
Qed.

(** Whatever is read as a date was one of its accepted texts. *)
Lemma date_from_iso_inr s d :
  date_from_iso (Some s) = inr d -> valid_date d /\ s ∈ accepted_texts d.
Proof.
  intros Hparse. split; [by apply (date_from_iso_valid (Some s))|].
  unfold date_from_iso, strptime_Ymd in Hparse.
  destruct (re_match_Ymd s) as [[Y [[M D] rest]]|] eqn:Hmatch; [|discriminate].
  destruct rest; [|discriminate].
  apply re_match_Ymd_elem in Hmatch as (-> & HY & HM & HD).
  apply check_date_fields_inr in Hparse as (-> & _).
  pose proof year_texts_format as HfY. rewrite Forall_forall in HfY.
  pose proof month_texts_forms as HfM. rewrite Forall_forall in HfM.
  pose proof day_texts_forms as HfD. rewrite Forall_forall in HfD.
  unfold accepted_texts. cbn [year month day].
  apply list_elem_of_bind. exists M. split; [|by apply HfM].
  apply list_elem_of_bind. exists D. split; [|by apply HfD].
  apply list_elem_of_singleton.
  by rewrite (HfY Y HY), append_empty_r.
Qed.

Lemma date_from_iso_error s e :
  date_from_iso s = inl e -> e = TypeError \/ exists msg, e = ValueError msg.
Proof.
  unfold date_from_iso, strptime_Ymd.
  destruct s as [s|]; [|intros [= <-]; by left].
  intros H. right.
  destruct (re_match_Ymd s) as [[Y [[M D] rest]]|];
    [|injection H as <-; eauto].
  destruct rest; [|injection H as <-; eauto].
  unfold check_date_fields in H.
  repeat match type of H with
         | (if ?b then _ else _) = _ => destruct b
         end; try discriminate; injection H as <-; eauto.
Qed.

Lemma isoformat_accepted d : isoformat d ∈ accepted_texts d.
Proof.
  unfold accepted_texts, month_forms, day_forms.
  apply list_elem_of_bind. exists (format_0d 2 (month d)).
  split; [|apply list_elem_of_here].
  apply list_elem_of_bind. exists (format_0d 2 (day d)).
  split; [|apply list_elem_of_here].
  apply list_elem_of_singleton. reflexivity.
Qed.

Lemma date_from_iso_isoformat d :
  valid_date d -> date_from_iso (Some (isoformat d)) = inr d.
Proof. intros H. apply date_from_iso_accepted; [exact H | apply isoformat_accepted]. Qed.



(** ** The lines of a file *)

Lemma readlines_cons c X :
  readlines (c :: X)
  = let same_line :=
      match readlines X with
      | [] => [[c]]
      | l :: ls => (c :: l) :: ls
      end in
    if decide (c = LF) then [c] :: readlines X
    else if decide (c = CR) then
      match X with
      | c' :: _ => if decide (c' = LF) then same_line else [c] :: readlines X
      | [] => [c] :: readlines X
      end
    else same_line.
Proof. reflexivity. Qed.

Lemma readlines_nonempty X : X <> [] -> readlines X <> [].
Proof.
  destruct X as [|c X]; [congruence|]. intros _. rewrite readlines_cons.
  cbv zeta. destruct (readlines X), X as [|c' X];
    repeat case_decide; discriminate.
Qed.

Lemma readlines_LF X : readlines (LF :: X) = [LF] :: readlines X.
Proof. reflexivity. Qed.

(** ** The reader *)

Section reader.
Context {S : Type} (body : S -> list string -> result S).

Lemma parse_add_char_ok r c :
  (field_len r < field_limit)%N ->
  parse_add_char r c
  = inr (mkReader (state r) (fields r) (c :: field r) (field_len r + 1)).
Proof.
  intros Hlen. unfold parse_add_char.
  destruct (N.leb_spec field_limit (field_len r)); [lia|reflexivity].
Qed.

Lemma for_rows_same_line r c l ls st :
  for_rows body r ((c :: l) :: ls) st
  = (r1 <~ parse_process_char r (Ch c) ;; for_rows body r1 (l :: ls) st).
Proof.
  simpl. unfold process_line. simpl.
  destruct (parse_process_char r (Ch c)); reflexivity.
Qed.

Lemma for_rows_line_break r c X st :
  (forall r1, parse_process_char r (Ch c) = inr r1 -> state r1 = IN_QUOTED_FIELD) ->
  for_rows body r ([c] :: X) st
  = (r1 <~ parse_process_char r (Ch c) ;; for_rows body r1 X st).
Proof.
  intros Hq. simpl. unfold process_line. simpl.
  destruct (parse_process_char r (Ch c)) as [e|r1] eqn:Hstep; [reflexivity|].
  simpl. specialize (Hq r1 eq_refl).
  unfold parse_process_char at 1. rewrite Hq. simpl.
  rewrite decide_False by (rewrite Hq; discriminate). reflexivity.
Qed.

(** One character of a line that is followed by more text: when it
    ends no line, or when the machine is inside a quoted field after
    it, the reader goes on with the rest of the text. *)
Lemma for_rows_char r c X st :
  X <> [] ->
  (c <> LF /\ c <> CR)
  \/ (forall r1, parse_process_char r (Ch c) = inr r1 ->
                 state r1 = IN_QUOTED_FIELD) ->
  for_rows body r (readlines (c :: X)) st
  = (r1 <~ parse_process_char r (Ch c) ;; for_rows body r1 (readlines X) st).
Proof.
  intros HX Hc. rewrite readlines_cons. cbv zeta.
  pose proof (readlines_nonempty X HX) as Hne.
  destruct (readlines X) as [|l ls] eqn:Hlines; [congruence|].
  destruct (decide (c = LF)) as [->|HLF].
  { destruct Hc as [[? _]|Hq]; [congruence|]. by apply for_rows_line_break. }
  destruct (decide (c = CR)) as [->|HCR]; [|apply for_rows_same_line].
  destruct X as [|c' X]; [congruence|].
  destruct (decide (c' = LF)); [apply for_rows_same_line|].
  destruct Hc as [[_ ?]|Hq]; [congruence|]. by apply for_rows_line_break.
Qed.

(** The data of a quoted field goes into the field buffer. *)
Lemma for_rows_quoted_data data :
  forall r tail st,
    state r = IN_QUOTED_FIELD ->
    (field_len r + N.of_nat (length data) <= field_limit)%N ->
    for_rows body r
      (readlines ((c ← data; if decide (c = quotechar) then [quotechar; c] else [c])
                  ++ quotechar :: tail)) st
    = for_rows body (add_chars r data) (readlines (quotechar :: tail)) st.
Proof.
  induction data as [|c data IH]; intros r tail st Hstate Hlen.
  - simpl. unfold add_chars. simpl. rewrite N.add_0_r. by destruct r.
  - assert (Hroom : (field_len r < field_limit)%N) by (simpl in Hlen; lia).
    cbn [mbind list_bind]. fold (@mbind list _).
    destruct (decide (c = quotechar)) as [->|Hc].
    + rewrite <- !app_assoc. cbn [app].
      rewrite for_rows_char;
        [|discriminate|left; split; discriminate].
      unfold parse_process_char at 1. rewrite Hstate.
      rewrite decide_True by reflexivity. cbn [bind ret].
      rewrite for_rows_char;
        [|nonempty|left; split; discriminate].
      unfold parse_process_char at 1. cbn [state set_state].
      rewrite decide_True by reflexivity.
      rewrite parse_add_char_ok by exact Hroom. cbn [bind ret].
      rewrite IH; [|reflexivity|cbn [field_len set_state]; simpl in Hlen; lia].
      f_equal. unfold add_chars, set_state. cbn [state fields field field_len].
      rewrite Hstate. f_equal.
      * simpl. by rewrite <- app_assoc.
      * simpl length. lia.
    + cbn [app].
      rewrite for_rows_char; [|nonempty|].
      2:{ right. intros r1. unfold parse_process_char. rewrite Hstate.
          rewrite decide_False by exact Hc.
          rewrite parse_add_char_ok by exact Hroom. intros [= <-]. exact Hstate. }
      unfold parse_process_char at 1. rewrite Hstate.
      rewrite decide_False by exact Hc.
      rewrite parse_add_char_ok by exact Hroom. cbn [bind ret].
      rewrite IH; [|exact Hstate|cbn [field_len]; simpl in Hlen; lia].
      f_equal. unfold add_chars. cbn [state fields field field_len].
      f_equal.
      * simpl. by rewrite <- app_assoc.
      * simpl length. lia.
Qed.

Lemma length_list_ascii_of_string f :
  length (list_ascii_of_string f) = String.length f.
Proof. induction f as [|c f IH]; [reflexivity|]. simpl. by rewrite IH. Qed.

(** A quoted field that is followed by more text ends in the state
    after its closing quote, with its text in the buffer. *)
Lemma for_rows_quoted_field r f tail st :
  state r = START_RECORD \/ state r = START_FIELD ->
  field r = [] -> field_len r = 0%N -> short f -> tail <> [] ->
  for_rows body r
    (readlines (quotechar :: join_append_data f ++ quotechar :: tail)) st
  = for_rows body
      (mkReader QUOTE_IN_QUOTED_FIELD (fields r)
                (rev (list_ascii_of_string f)) (N.of_nat (String.length f)))
      (readlines tail) st.
Proof.
  intros Hstate Hfield Hlen Hshort Htail.
  unfold join_append_data.
  rewrite for_rows_char; [|nonempty|left; split; discriminate].
  assert (Hopen : parse_process_char r (Ch quotechar)
                  = inr (set_state IN_QUOTED_FIELD r)).
  { unfold parse_process_char. by destruct Hstate as [->| ->]. }
  rewrite Hopen. cbn [bind].
  rewrite for_rows_quoted_data;
    [|reflexivity
     |cbn [field_len set_state]; rewrite Hlen, length_list_ascii_of_string;
      unfold short in Hshort; lia].
  rewrite for_rows_char; [|exact Htail|left; split; discriminate].
  unfold parse_process_char at 1. cbn [state add_chars set_state].
  rewrite decide_True by reflexivity. cbn [bind ret].
  f_equal. unfold set_state, add_chars. cbn [state fields field field_len].
  rewrite Hfield, Hlen, app_nil_r, length_list_ascii_of_string. f_equal.
Qed.

(** The fields after the first, and the end of the record. *)
Lemma for_rows_more_fields fs :
  forall n pre buf len rest st,
    Forall short fs ->
    for_rows body (mkReader QUOTE_IN_QUOTED_FIELD pre buf len)
      (readlines (join_fields (Datatypes.S n) fs ++ LF :: rest)) st
    = (s' <~ body st (pre ++ string_of_list_ascii (rev buf) :: fs) ;;
       for_rows body parse_reset (readlines rest) s').
Proof.
  induction fs as [|f fs IH]; intros n pre buf len rest st Hshort.
  - cbn [join_fields app]. rewrite readlines_LF. reflexivity.
  - inversion Hshort as [|? ? Hf Hfs]; subst.
    cbn [join_fields]. rewrite <- !app_assoc. cbn [app].
    rewrite for_rows_char; [|nonempty|left; split; discriminate].
    assert (Hnext : parse_process_char
                      (mkReader QUOTE_IN_QUOTED_FIELD pre buf len) (Ch delimiter)
                    = inr (mkReader START_FIELD
                             (pre ++ [string_of_list_ascii (rev buf)]) [] 0))
      by reflexivity.
    rewrite Hnext. cbn [bind].
    rewrite for_rows_quoted_field;
      [|by right|reflexivity|reflexivity|exact Hf|nonempty].
    cbn [fields]. rewrite IH by exact Hfs.
    rewrite rev_involutive, string_of_list_ascii_of_string, <- app_assoc.
    reflexivity.
Qed.

(** A record that the writer put out is read back as its fields. *)
Lemma for_rows_record f fs rest st :
  Forall short (f :: fs) ->
  for_rows body parse_reset (readlines (writer_writerow (f :: fs) ++ rest)) st
  = (s' <~ body st (f :: fs) ;; for_rows body parse_reset (readlines rest) s').
Proof.
  intros Hshort. inversion Hshort as [|? ? Hf Hfs]; subst.
  unfold writer_writerow. cbn [join_fields]. rewrite <- !app_assoc.
  cbn [app].
  rewrite for_rows_quoted_field;
    [|by left|reflexivity|reflexivity|exact Hf|nonempty].
  rewrite for_rows_more_fields by exact Hfs.
  by rewrite rev_involutive, string_of_list_ascii_of_string.
Qed.

Lemma for_rows_end st : for_rows body parse_reset (readlines []) st = inr st.
Proof. reflexivity. Qed.
End reader.

(** ** Writing the store *)

Lemma DictWriter_writeheader_eq :
  DictWriter_writeheader fieldnames = inr (writer_writerow fieldnames).
Proof. vm_compute. reflexivity. Qed.

Lemma to_dict_dom e :
  dom (to_dict e) ⊆ (list_to_set fieldnames : gset string).
Proof.
  unfold to_dict, fieldnames. rewrite !dom_insert_L, dom_empty_L.
  cbn [list_to_set]. set_solver.
Qed.

Lemma DictWriter_writerow_entry e :
  DictWriter_writerow fieldnames (to_dict e)
  = inr (writer_writerow (entry_fields e)).
Proof.
  unfold DictWriter_writerow, DictWriter_dict_to_list.
  rewrite decide_True by apply to_dict_dom. cbn [bind ret].
  do 2 f_equal. unfold fieldnames, entry_fields, to_dict. cbn [fmap list_fmap].
  rewrite lookup_insert_eq.
  rewrite lookup_insert_ne by discriminate. rewrite lookup_insert_eq.
  do 2 (rewrite lookup_insert_ne by discriminate). rewrite lookup_insert_eq.
  cbn [default from_option py_str id]. by destruct (entry_comment e).
Qed.

Lemma serialize_rows_eq days :
  serialize_rows days = inr ((fun e => writer_writerow (entry_fields e)) <$> days).
Proof.
  induction days as [|e days IH]; [reflexivity|].
  cbn [serialize_rows]. rewrite DictWriter_writerow_entry, IH. reflexivity.
Qed.

Lemma serialize_eq days :
  serialize days
  = inr (writer_writerow fieldnames
         ++ concat ((fun e => writer_writerow (entry_fields e)) <$> days)).
Proof.
  unfold serialize, serialize_chunks.
  rewrite DictWriter_writeheader_eq, serialize_rows_eq. reflexivity.
Qed.

(** ** Reading the store *)

Lemma string_length_append (a b : string) :
  String.length (a +:+ b) = (String.length a + String.length b)%nat.
Proof.
  induction a as [|c a IH]; [reflexivity|].
  rewrite append_cons. simpl. by rewrite IH.
Qed.

Lemma format_0d_2_length :
  Forall (fun n => String.length (format_0d 2 n) = 2%nat) (seqZ 1 31).
Proof. eapply bool_decide_unpack. vm_compute. exact I. Qed.

Lemma isoformat_length d : valid_date d -> String.length (isoformat d) = 10%nat.
Proof.
  intros Hvalid. pose proof (valid_date_fields d Hvalid) as (Hy & Hm & Hd).
  pose proof (days_in_month_le (year d) (month d)) as Hle.
  destruct (year_ok_digits _ (year_ok_range _ Hy))
    as (_ & a & b & c & d0 & HY & _).
  pose proof format_0d_2_length as H2. rewrite Forall_forall in H2.
  unfold isoformat. rewrite !string_length_append, HY.
  rewrite (H2 (month d)) by (apply elem_of_seqZ; lia).
  rewrite (H2 (day d)) by (apply elem_of_seqZ; lia).
  reflexivity.
Qed.

Lemma storable_fields_short e : storable e -> Forall short (entry_fields e).
Proof.
  intros (Hvalid & c & Hc & Hshort). unfold entry_fields.
  constructor; [|constructor; [|constructor; [|constructor]]].
  - unfold short. rewrite (isoformat_length _ Hvalid). unfold field_limit. lia.
  - unfold short, field_limit.
    destruct (entry_mood e); cbn [DayMood.name String.length]; lia.
  - rewrite Hc. exact Hshort.
Qed.

Lemma DayMood_getitem_name m : DayMood.getitem (Some (DayMood.name m)) = inr m.
Proof. by destruct m. Qed.

(** A row of the three column texts of an entry is that entry again. *)
Lemma DictReader_body_entry e acc :
  storable e ->
  DictReader_body entry_of_row (Some fieldnames, acc) (entry_fields e)
  = inr (Some fieldnames, acc ++ [e]).
Proof.
  intros (Hvalid & c & Hc & _). destruct e as [d m comment].
  cbn [entry_comment] in Hc. subst comment.
  unfold DictReader_body, entry_fields, fieldnames. cbn [fst snd].
  unfold DictReader_row. cbn [zip zip_with foldl length drop fst snd].
  unfold entry_of_row, dict_getitem.
  do 2 (rewrite lookup_insert_ne by discriminate). rewrite lookup_insert_eq.
  cbn [bind ret entry_date entry_mood entry_comment default id].
  rewrite (date_from_iso_isoformat d Hvalid). cbn [bind ret].
  rewrite lookup_insert_ne by discriminate. rewrite lookup_insert_eq.
  cbn [bind ret]. rewrite DayMood_getitem_name. cbn [bind ret].
  rewrite lookup_insert_eq. reflexivity.
Qed.

Lemma parse_rows days :
  forall acc, Forall storable days ->
  for_rows (DictReader_body entry_of_row) parse_reset
    (readlines (concat ((fun e => writer_writerow (entry_fields e)) <$> days)))
    (Some fieldnames, acc)
  = inr (Some fieldnames, acc ++ days).
Proof.
  induction days as [|e days IH]; intros acc Hall.
  - cbn [fmap list_fmap concat]. rewrite for_rows_end. by rewrite app_nil_r.
  - inversion Hall as [|? ? He Hdays]; subst.
    cbn [fmap list_fmap concat].
    pose proof (storable_fields_short e He) as Hshort.
    pose proof (DictReader_body_entry e acc He) as Hbody.
    unfold entry_fields in *.
    rewrite for_rows_record by exact Hshort.
    rewrite Hbody. cbn [bind ret].
    rewrite (IH _ Hdays). by rewrite <- app_assoc.
Qed.

Lemma parse_days_serialized days :
  Forall storable days ->
  parse_days (writer_writerow fieldnames
              ++ concat ((fun e => writer_writerow (entry_fields e)) <$> days))
  = inr days.
Proof.
  intros Hall. unfold parse_days, DictReader_comprehension.
  unfold fieldnames at 1.
  rewrite for_rows_record
    by (repeat constructor; unfold short, field_limit; simpl; lia).
  cbn [DictReader_body fst snd bind ret].
  change ["date"; "mood"; "comment"]%string with fieldnames.
  rewrite (parse_rows days [] Hall). reflexivity.
Qed.

(** C2, as stated, fails: an entry whose comment is longer than the
    field limit of the reader is written, but the text is not read
    back. *)
Lemma long_comment_not_read_back :
  (text <~ serialize [mkDayEntry (mkdate 2019 1 14) good (Some long_comment)] ;;
   parse_days text)
  = inl (csv_Error "field larger than field limit (131072)").
Proof. vm_compute. reflexivity. Qed.

(** C2, amended.  For every sequence of entries that hold calendar dates
    and whose comments are texts of at most 131072 characters, writing
    the sequence (a header record of the three column names, then a
    record per entry with the ISO date, the name of the mood and the
    comment, every field quoted) and reading the text back gives the
    sequence again, in the same order and with the same field values.
    The dates need not be distinct. *)
Theorem store_round_trip (days : list DayEntry) :
  Forall storable days ->
  exists text,
    serialize days = inr text
    /\ text = writer_writerow ["date"; "mood"; "comment"]%string
              ++ concat ((fun e => writer_writerow (entry_fields e)) <$> days)
    /\ parse_days text = inr days.
Proof.
  intros Hall. eexists. split; [apply serialize_eq|].
  split; [reflexivity|]. by apply parse_days_serialized.
Qed.

Lemma store_round_trip_witness :
  Forall storable
    [mkDayEntry (mkdate 2019 1 14) amazing (Some "great day!");
     mkDayEntry (mkdate 2019 1 15) sad (Some EmptyString)]
  /\ exists text,
       serialize [mkDayEntry (mkdate 2019 1 14) amazing (Some "great day!");
                  mkDayEntry (mkdate 2019 1 15) sad (Some EmptyString)]
       = inr text
       /\ parse_days text
          = inr [mkDayEntry (mkdate 2019 1 14) amazing (Some "great day!");
                 mkDayEntry (mkdate 2019 1 15) sad (Some EmptyString)].
Proof.
  assert (Hall : Forall storable
            [mkDayEntry (mkdate 2019 1 14) amazing (Some "great day!");
             mkDayEntry (mkdate 2019 1 15) sad (Some EmptyString)]).
  { repeat constructor; eexists; (split; [reflexivity|]);
      unfold field_limit; simpl; lia. }
  split; [exact Hall|].
  destruct (store_round_trip _ Hall) as (text & Hser & _ & Hparse).
  exists text. split; assumption.
Defined.

(** ** Saving *)

Section saving.
Context (name : string).
Implicit Types (F : gmap string (list ascii)) (content : list ascii).

Lemma file_write_run data F content ev b :
  file_write name data (mkWorld (<[name := content]> F) ev b)
  = match b with
    | Some O => (inl OSError, mkWorld (<[name := content]> F) ev b)
    | _ => (inr tt,
            mkWorld (<[name := content ++ data]> F) (ev ++ [EvWrite name data])
                    (Nat.pred <$> b))
    end.
Proof.
  unfold file_write. cbn [writes_left files events].
  destruct b as [[|k]|]; [reflexivity| |]; by rewrite alter_insert_eq.
Qed.

Lemma write_rows_run days :
  forall F content ev b,
    write_rows name days (mkWorld (<[name := content]> F) ev b)
    = (if covers b (length days) then inr tt else inl OSError,
       mkWorld
         (<[name := content
                    ++ concat (take (writes_done b (length days)) (row_text <$> days))]> F)
         (ev ++ (EvWrite name
                   <$> take (writes_done b (length days)) (row_text <$> days)))
         (budget_after b (writes_done b (length days)))).
Proof.
  induction days as [|d days IH]; intros F content ev b.
  - cbn [write_rows io_ret length fmap list_fmap].
    assert (writes_done b 0 = 0%nat) as -> by (destruct b; [apply Nat.min_0_r|reflexivity]).
    assert (covers b 0 = true) as -> by (by destruct b).
    cbn [take concat fmap list_fmap]. rewrite !app_nil_r.
    do 2 f_equal. destruct b; cbn; [|reflexivity]. f_equal. lia.
  - cbn [write_rows]. unfold io_bind at 1, io_lift.
    rewrite DictWriter_writerow_entry. unfold io_bind at 1.
    rewrite file_write_run.
    destruct b as [[|k]|].
    + cbn [covers length writes_done Nat.min take concat fmap list_fmap
             budget_after option_fmap option_map Nat.leb].
      by rewrite !app_nil_r.
    + rewrite IH.
      cbn [covers length writes_done Nat.min take concat fmap list_fmap
             budget_after option_fmap option_map Nat.leb Nat.pred Nat.sub].
      unfold row_text at 2 4. rewrite <- !app_assoc. reflexivity.
    + rewrite IH.
      cbn [covers length writes_done take concat fmap list_fmap
             budget_after option_fmap option_map].
      unfold row_text at 2 4. rewrite <- !app_assoc. reflexivity.
Qed.
End saving.

Lemma temp_name_fresh env fs name :
  temp_name env fs = Some name ->
  exists n, n ∈ candidate_names env
            /\ name = path_join (tempdir env) n /\ fs !! name = None.
Proof.
  unfold temp_name. intros H.
  destruct (List.find _ (candidate_names env)) as [n|] eqn:Hfind; [|discriminate].
  injection H as <-. apply List.find_some in Hfind as [Hin Hfree].
  exists n. split; [by apply list_elem_of_In|]. split; [reflexivity|].
  by apply bool_decide_eq_true in Hfree.
Qed.

Lemma write_temporary_run env days wd name :
  temp_name env (files wd) = Some name ->
  write_temporary env days wd
  = (if covers (writes_left wd) (Datatypes.S (length days)) then inr name
     else inl OSError,
     mkWorld
       (<[name := concat (take (writes_done (writes_left wd) (Datatypes.S (length days)))
                               (writer_writerow fieldnames :: (row_text <$> days)))]>
          (files wd))
       (events wd
        ++ EvCreate name
           :: (EvWrite name
                 <$> take (writes_done (writes_left wd) (Datatypes.S (length days)))
                          (writer_writerow fieldnames :: (row_text <$> days))))
       (budget_after (writes_left wd)
                     (writes_done (writes_left wd) (Datatypes.S (length days))))).
Proof.
  intros Hname. unfold write_temporary.
  unfold io_bind at 1, NamedTemporaryFile. rewrite Hname.
  unfold io_bind at 1, io_lift. rewrite DictWriter_writeheader_eq.
  unfold io_bind at 1. rewrite file_write_run.
  destruct (writes_left wd) as [[|k]|].
  - reflexivity.
  - unfold io_bind, io_ret. rewrite write_rows_run.
    cbn [covers writes_done Nat.min Nat.leb take concat fmap list_fmap
           budget_after option_fmap option_map Nat.pred Nat.sub app].
    rewrite <- !app_assoc. cbn [app].
    by destruct (length days <=? k)%nat.
  - unfold io_bind, io_ret. rewrite write_rows_run.
    cbn [covers writes_done take concat fmap list_fmap
           budget_after option_fmap option_map app].
    rewrite <- !app_assoc. reflexivity.
Qed.

Lemma shutil_move_run env name file content F ev b :
  name <> file ->
  exists F',
    shutil_move env name file (mkWorld (<[name := content]> F) ev b)
    = (inr tt, mkWorld F' (ev ++ move_events env name file) b)
    /\ F' !! file = Some content
    /\ F' !! name = None
    /\ forall p, p <> file -> p <> name -> F' !! p = F !! p.
Proof.
  intros Hne. unfold shutil_move, move_events.
  destruct (decide (device env (dirname name) = device env (dirname file))).
  - eexists. split; [|split; [|split]].
    + unfold os_rename. cbn [files events writes_left].
      rewrite lookup_insert_eq. reflexivity.
    + apply lookup_insert_eq.
    + rewrite lookup_insert_ne by congruence. apply lookup_delete_eq.
    + intros p Hp1 Hp2. rewrite lookup_insert_ne by congruence.
      rewrite lookup_delete_ne by congruence. by rewrite lookup_insert_ne.
  - eexists. split; [|split; [|split]].
    + unfold io_bind, copy_file, os_unlink. cbn [files events writes_left].
      rewrite lookup_insert_eq. cbn [files events writes_left].
      rewrite <- app_assoc. reflexivity.
    + rewrite lookup_delete_ne by congruence. apply lookup_insert_eq.
    + apply lookup_delete_eq.
    + intros p Hp1 Hp2. rewrite lookup_delete_ne by congruence.
      rewrite lookup_insert_ne by congruence. by rewrite lookup_insert_ne.
Qed.




(** ** Loading *)

Lemma bad_row_raises row : bad_row row -> raises (entry_of_row row).
Proof.
  unfold entry_of_row, dict_getitem, raises.
  intros [(v & Hv & e & He)|(v & Hv & e & He)].
  - rewrite Hv. cbn [bind ret]. rewrite He. eauto.
  - destruct (row !! "date"%string) as [s|]; [|cbn; eauto].
    cbn [bind ret]. destruct (date_from_iso s) as [e'|d]; [cbn; eauto|].
    cbn [bind ret]. rewrite Hv. cbn [bind ret]. rewrite He. eauto.
Qed.

Lemma entry_of_row_error row e :
  entry_of_row row = inl e ->
  e = TypeError \/ (exists msg, e = ValueError msg) \/ (exists k, e = KeyError k).
Proof.
  unfold entry_of_row, dict_getitem.
  destruct (row !! "date"%string) as [s|]; [|intros [= <-]; eauto].
  cbn [bind ret]. destruct (date_from_iso s) as [e'|d] eqn:Hd.
  { intros [= <-]. destruct (date_from_iso_error _ _ Hd) as [->|?]; eauto. }
  cbn [bind ret]. destruct (row !! "mood"%string) as [m|]; [|intros [= <-]; eauto].
  cbn [bind ret]. destruct (DayMood.getitem m) as [e'|mood] eqn:Hm.
  { intros [= <-]. unfold DayMood.getitem in Hm. destruct m as [m|].
    - destruct (List.find _ _); [discriminate|]. injection Hm as <-. eauto.
    - injection Hm as <-. eauto. }
  cbn [bind ret]. destruct (row !! "comment"%string); [discriminate|].
  intros [= <-]. eauto.
Qed.

Lemma mapM_Exists_raises {A B} (f : A -> result B) l :
  Exists (fun x => raises (f x)) l -> raises (mapM f l).
Proof.
  induction 1 as [x l [e He]|x l _ [e IH]].
  - exists e. cbn [mapM]. by rewrite He.
  - cbn [mapM]. destruct (f x) as [e'|y]; [by exists e'|].
    cbn [bind]. rewrite IH. by exists e.
Qed.

Lemma mapM_error {A B} (f : A -> result B) l e :
  mapM f l = inl e -> exists x, x ∈ l /\ f x = inl e.
Proof.
  induction l as [|x l IH]; [discriminate|]. cbn [mapM].
  destruct (f x) as [e'|y] eqn:Hx.
  - intros [= <-]. exists x. split; [apply list_elem_of_here | exact Hx].
  - cbn [bind]. destruct (mapM f l) as [e'|ys]; [|discriminate].
    intros [= <-]. destruct (IH eq_refl) as (x' & Hin & Hx').
    exists x'. split; [by apply list_elem_of_further | exact Hx'].
Qed.

Lemma mapM_app {A B} (f : A -> result B) l1 l2 :
  mapM f (l1 ++ l2)
  = (ys1 <~ mapM f l1 ;; ys2 <~ mapM f l2 ;; ret (ys1 ++ ys2)).
Proof.
  induction l1 as [|x l1 IH]; cbn [mapM app bind ret].
  - by destruct (mapM f l2).
  - destruct (f x) as [e|y]; [reflexivity|]. cbn [bind]. rewrite IH.
    destruct (mapM f l1) as [e|ys1]; [reflexivity|]. cbn [bind].
    by destruct (mapM f l2).
Qed.

Lemma DictReader_body_mapM {A} (f : gmap string (option string) -> result A)
    fns accR row fns' out :
  DictReader_body ret (fns, accR) row = inr (fns', out) ->
  exists rows,
    out = accR ++ rows
    /\ forall accF,
         DictReader_body f (fns, accF) row
         = (ys <~ mapM f rows ;; ret (fns', accF ++ ys)).
Proof.
  unfold DictReader_body. cbn [fst snd]. destruct fns as [fns|].
  - destruct row as [|x row].
    + intros [= <- <-]. exists []. split; [by rewrite app_nil_r|].
      intros accF. cbn [mapM bind ret]. by rewrite app_nil_r.
    + cbn [bind ret]. intros [= <- <-]. eexists [_]. split; [reflexivity|].
      intros accF. cbn [mapM]. by destruct (f _).
  - intros [= <- <-]. exists []. split; [by rewrite app_nil_r|].
    intros accF. cbn [mapM bind ret]. by rewrite app_nil_r.
Qed.

(** Iterating a [DictReader] with a body [f], against iterating it with
    no body at all: when the latter yields the rows [rows], the former
    is [f] over those rows in order. *)
Lemma for_rows_DictReader {A} (f : gmap string (option string) -> result A) lines :
  forall r fns accR fns' out,
    for_rows (DictReader_body ret) r lines (fns, accR) = inr (fns', out) ->
    exists rows,
      out = accR ++ rows
      /\ forall accF,
           for_rows (DictReader_body f) r lines (fns, accF)
           = (ys <~ mapM f rows ;; ret (fns', accF ++ ys)).
Proof.
  induction lines as [|line lines IH]; intros r fns accR fns' out.
  - cbn [for_rows].
    destruct (negb (field_len r =? 0)%N || bool_decide (state r = IN_QUOTED_FIELD)).
    + apply DictReader_body_mapM.
    + intros [= <- <-]. exists []. split; [by rewrite app_nil_r|].
      intros accF. cbn [mapM bind ret]. by rewrite app_nil_r.
  - cbn [for_rows]. destruct (process_line r line) as [e|r']; [discriminate|].
    cbn [bind]. destruct (decide (state r' = START_RECORD)) as [_|_]; [|apply IH].
    destruct (DictReader_body ret (fns, accR) (fields r')) as [e|[fns1 out1]] eqn:H1;
      [discriminate|].
    cbn [bind]. intros Hrest.
    destruct (DictReader_body_mapM f _ _ _ _ _ H1) as (rows1 & -> & Hf1).
    destruct (IH _ _ _ _ _ Hrest) as (rows2 & -> & Hf2).
    exists (rows1 ++ rows2). split; [by rewrite app_assoc|].
    intros accF. rewrite Hf1, mapM_app.
    destruct (mapM f rows1) as [e|ys1]; [reflexivity|]. cbn [bind ret].
    rewrite Hf2. destruct (mapM f rows2) as [e|ys2]; [reflexivity|].
    cbn [bind ret]. by rewrite app_assoc.
Qed.

Lemma DictReader_body_rows {A} (f : gmap string (option string) -> result A)
    fns accF row fns' outF :
  DictReader_body f (fns, accF) row = inr (fns', outF) ->
  exists rows ys,
    (forall accR, DictReader_body ret (fns, accR) row = inr (fns', accR ++ rows))
    /\ mapM f rows = inr ys /\ outF = accF ++ ys.
Proof.
  unfold DictReader_body. cbn [fst snd]. destruct fns as [fns|].
  - destruct row as [|x row].
    + intros [= <- <-]. exists [], []. split; [|split].
      * intros accR. by rewrite app_nil_r.
      * reflexivity.
      * by rewrite app_nil_r.
    + destruct (f _) as [e|y] eqn:Hf; [discriminate|].
      cbn [bind ret]. intros [= <- <-]. eexists [_], [y]. split; [|split].
      * intros accR. reflexivity.
      * cbn [mapM]. by rewrite Hf.
      * reflexivity.
  - intros [= <- <-]. exists [], []. split; [|split].
    + intros accR. by rewrite app_nil_r.
    + reflexivity.
    + by rewrite app_nil_r.
Qed.

(** Conversely, when the iteration with the body [f] answers, the reader
    got through the whole file and [f] answered on every row. *)
Lemma for_rows_DictReader_rows {A} (f : gmap string (option string) -> result A)
    lines :
  forall r fns accF fns' outF,
    for_rows (DictReader_body f) r lines (fns, accF) = inr (fns', outF) ->
    exists rows ys,
      (forall accR,
         for_rows (DictReader_body ret) r lines (fns, accR)
         = inr (fns', accR ++ rows))
      /\ mapM f rows = inr ys /\ outF = accF ++ ys.
Proof.
  induction lines as [|line lines IH]; intros r fns accF fns' outF.
  - cbn [for_rows].
    destruct (negb (field_len r =? 0)%N || bool_decide (state r = IN_QUOTED_FIELD)).
    + apply DictReader_body_rows.
    + intros [= <- <-]. exists [], []. split; [|split].
      * intros accR. by rewrite app_nil_r.
      * reflexivity.
      * by rewrite app_nil_r.
  - cbn [for_rows]. destruct (process_line r line) as [e|r']; [discriminate|].
    cbn [bind]. destruct (decide (state r' = START_RECORD)) as [_|_]; [|apply IH].
    destruct (DictReader_body f (fns, accF) (fields r')) as [e|[fns1 out1]] eqn:H1;
      [discriminate|].
    cbn [bind]. intros Hrest.
    destruct (DictReader_body_rows f _ _ _ _ _ H1) as (rows1 & ys1 & Hr1 & Hm1 & ->).
    destruct (IH _ _ _ _ _ Hrest) as (rows2 & ys2 & Hr2 & Hm2 & ->).
    exists (rows1 ++ rows2), (ys1 ++ ys2). split; [|split].
    + intros accR. rewrite Hr1. cbn [bind]. rewrite Hr2. by rewrite app_assoc.
    + rewrite mapM_app, Hm1. cbn [bind]. rewrite Hm2. reflexivity.
    + by rewrite app_assoc.
Qed.

Lemma mapM_inr_Forall {A B} (f : A -> result B) l ys :
  mapM f l = inr ys -> Forall (fun x => ~ raises (f x)) l.
Proof.
  revert ys. induction l as [|x l IH]; intros ys; [constructor|].
  cbn [mapM]. destruct (f x) as [e|y] eqn:Hx; [discriminate|]. cbn [bind].
  destruct (mapM f l) as [e|ys'] eqn:Hl; [discriminate|]. intros _.
  constructor; [|by apply (IH ys')].
  rewrite Hx. intros [e He]. discriminate.
Qed.

(** C4.  Loading is all or nothing.  When some row of the file, as the
    [DictReader] yields it, has a date that does not parse or a mood
    that is not the name of a member, [read_days_from_file] raises and
    answers no list of entries, however many rows before or after that
    one are well formed; the exception is the one of the first row that
    fails: [ValueError] for a date, [KeyError] for a mood or an absent
    column, [TypeError] for an absent date.  Whenever
    [read_days_from_file] does answer a list, the reader got through the
    whole file, the list has an entry for every row, and no row was bad.
    A file with the mood [weird] in its second row raises [KeyError] for
    that name. *)
Theorem load_all_or_nothing
    (fs : gmap string (list ascii)) (file : string) (content : list ascii) :
  fs !! file = Some content ->
  (forall rows,
     DictReader_comprehension ret content = inr rows ->
     Exists bad_row rows ->
     exists e,
       read_days_from_file fs file = inl e
       /\ (e = TypeError \/ (exists msg, e = ValueError msg)
           \/ (exists k, e = KeyError k)))
  /\ (forall days,
        read_days_from_file fs file = inr days ->
        exists rows,
          DictReader_comprehension ret content = inr rows
          /\ mapM entry_of_row rows = inr days
          /\ length days = length rows
          /\ Forall (fun row => ~ bad_row row) rows)
  /\ read_days_from_file {[ file := store_weird ]} file
     = inl (KeyError (Some "weird"%string)).
Proof.
  intros Hfile. split; [|split].
  - intros rows Hrows Hbad.
    unfold read_days_from_file. rewrite Hfile.
    unfold parse_days, DictReader_comprehension in *.
    destruct (for_rows (DictReader_body ret) parse_reset (readlines content)
                (None, [])) as [e|[fns out]] eqn:Hret; [discriminate|].
    cbn [bind ret snd] in Hrows. injection Hrows as ->.
    destruct (for_rows_DictReader entry_of_row _ _ _ _ _ _ Hret)
      as (rows' & Hout & Hf). cbn [app] in Hout. subst rows'.
    rewrite Hf.
    assert (Hraises : raises (mapM entry_of_row rows)).
    { apply mapM_Exists_raises. eapply Exists_impl; [exact Hbad|].
      intros row. apply bad_row_raises. }
    destruct Hraises as [e He]. rewrite He. exists e. split; [reflexivity|].
    destruct (mapM_error _ _ _ He) as (row & _ & Hrow).
    by apply (entry_of_row_error row).
  - intros days. unfold read_days_from_file. rewrite Hfile.
    unfold parse_days, DictReader_comprehension.
    destruct (for_rows (DictReader_body entry_of_row) parse_reset
                (readlines content) (None, [])) as [e|[fns out]] eqn:Hrun;
      [discriminate|].
    cbn [bind ret snd]. intros [= ->].
    destruct (for_rows_DictReader_rows entry_of_row _ _ _ _ _ _ Hrun)
      as (rows & ys & Hrows & Hmap & Hdays).
    cbn [app] in Hdays. subst ys.
    exists rows. rewrite (Hrows []). split; [reflexivity|].
    split; [exact Hmap|]. split.
    + clear -Hmap. revert days Hmap.
      induction rows as [|row rows IH]; intros days.
      * by intros [= <-].
      * cbn [mapM]. destruct (entry_of_row row); [discriminate|]. cbn [bind].
        destruct (mapM entry_of_row rows) as [|ys] eqn:Hm; [discriminate|].
        intros [= <-]. cbn [length]. by rewrite (IH ys eq_refl).
    + eapply Forall_impl; [exact (mapM_inr_Forall _ _ _ Hmap)|].
      intros row Hok Hbad. apply Hok. by apply bad_row_raises.
  - unfold read_days_from_file. rewrite lookup_singleton_eq.
    vm_compute. reflexivity.
Qed.

Lemma load_all_or_nothing_witness :
  exists e,
    read_days_from_file {[ "year_in_pixels.csv"%string := store_weird ]}
                        "year_in_pixels.csv"
    = inl e
    /\ (e = TypeError \/ (exists msg, e = ValueError msg)
        \/ (exists k, e = KeyError k)).
Proof.
  refine (proj1 (load_all_or_nothing
                   {[ "year_in_pixels.csv"%string := store_weird ]}
                   "year_in_pixels.csv" store_weird _)
            [DictReader_row fieldnames
               ["2019-01-14"; "amazing"; "great day!"]%string;
             DictReader_row fieldnames
               ["2019-01-15"; "weird"; "odd day"]%string]
            _ _).
  - reflexivity.
  - vm_compute. reflexivity.
  - apply Exists_cons_tl, Exists_cons_hd. right.
    exists (Some "weird"%string). split; [reflexivity|].
    eexists. reflexivity.
Defined.

(** ** The commands *)

Lemma read_days_from_file_missing fs file :
  fs !! file = None ->
  read_days_from_file fs file = inl (FileNotFoundError file).
Proof. intros H. unfold read_days_from_file. by rewrite H. Qed.

Lemma render_command_missing fs file :
  fs !! file = None -> render_command fs file = inl (FileNotFoundError file).
Proof.
  intros H. unfold render_command. by rewrite read_days_from_file_missing.
Qed.

(** C5.  With no file at the path the [render] command does not end
    quietly: the [FileNotFoundError] of [open] leaves
    [read_days_from_file] and nothing in the [render] branch catches it.
    The [log] branch, run in the same place, does catch it and goes on
    with no entries: it ends normally and leaves a store of the header
    and the new entry. *)
Theorem render_missing_file_raises :
  render_command ∅ "year_in_pixels.csv"
  = inl (FileNotFoundError "year_in_pixels.csv")
  /\ (let '(res, wd') :=
        log_command env0 "year_in_pixels.csv" day0 (mkWorld ∅ [] None) in
      res = inr tt
      /\ files wd' !! "year_in_pixels.csv"%string
         = Some (writer_writerow fieldnames ++ row_text day0)).
Proof. split; [reflexivity|]. vm_compute. split; reflexivity. Qed.



(** * Further properties *)

(** ** More on upsert *)

Lemma filter_other_date_twice (E : list DayEntry) a b :
  filter (other_date b) (filter (other_date a) E)
  = filter (fun d => other_date a d /\ other_date b d) E.
Proof.
  induction E as [|d E IH]; [reflexivity|].
  rewrite (filter_cons (other_date a)), (filter_cons (fun d => _ /\ _)).
  destruct (decide (other_date a d)) as [Ha|Ha].
  - rewrite filter_cons. destruct (decide (other_date b d)) as [Hb|Hb].
    + rewrite decide_True by done. by rewrite IH.
    + rewrite decide_False by tauto. exact IH.
  - rewrite decide_False by tauto. exact IH.
Qed.

(** X1.  The last write on a date wins: upserting [a] and then an entry
    [b] on the same date gives what upserting [b] alone gives, so the
    entry [a] leaves no trace. *)
Theorem upsert_same_date_overrides (E : list DayEntry) (a b : DayEntry) :
  entry_date a = entry_date b ->
  upsert (upsert E a) b = upsert E b.
Proof.
  intros Hab. unfold upsert at 1 2. rewrite filter_app.
  rewrite filter_cons_False by (unfold other_date; intros H; by apply H).
  rewrite filter_nil, app_nil_r.
  assert (Hsame : forall d, other_date a d <-> other_date b d)
    by (intros d; unfold other_date; by rewrite Hab).
  rewrite (list_filter_iff (other_date a) (other_date b) E Hsame).
  by rewrite (filter_keeps_all _ _ (filter_other_date_all E b)).
Qed.

(** X2.  Upserts on different dates commute up to the order of the two
    new entries: both orders keep the same old entries, in their old
    order, and differ only in which of the two new entries comes last. *)
Theorem upsert_different_dates_commute (E : list DayEntry) (a b : DayEntry) :
  entry_date a <> entry_date b ->
  exists F : list DayEntry,
    F = filter (fun d => entry_date d <> entry_date a
                         /\ entry_date d <> entry_date b) E
    /\ upsert (upsert E a) b = F ++ [a; b]
    /\ upsert (upsert E b) a = F ++ [b; a]
    /\ upsert (upsert E a) b ≡ₚ upsert (upsert E b) a.
Proof.
  intros Hab. eexists. split; [reflexivity|].
  assert (H1 : upsert (upsert E a) b
               = filter (fun d => other_date a d /\ other_date b d) E ++ [a; b]).
  { unfold upsert at 1 2. rewrite filter_app, filter_other_date_twice.
    rewrite filter_cons_True by exact Hab.
    rewrite filter_nil, <- app_assoc. reflexivity. }
  assert (H2 : upsert (upsert E b) a
               = filter (fun d => other_date a d /\ other_date b d) E ++ [b; a]).
  { unfold upsert at 1 2. rewrite filter_app, filter_other_date_twice.
    rewrite filter_cons_True by (unfold other_date; congruence).
    rewrite filter_nil, <- app_assoc.
    rewrite (list_filter_iff (fun d => other_date b d /\ other_date a d)
               (fun d => other_date a d /\ other_date b d) E)
      by (intros d; tauto).
    reflexivity. }
  split; [exact H1|]. split; [exact H2|].
  rewrite H1, H2. apply Permutation_app_head, Permutation_swap.
Qed.

Lemma upsert_different_dates_commute_witness :
  upsert (upsert [] day0) (mkDayEntry (mkdate 2019 1 16) good None)
  ≡ₚ upsert (upsert [] (mkDayEntry (mkdate 2019 1 16) good None)) day0.
Proof.
  destruct (upsert_different_dates_commute []
              day0 (mkDayEntry (mkdate 2019 1 16) good None))
    as (F & _ & _ & _ & Hperm); [discriminate | exact Hperm].
Defined.

Lemma upsert_same_date_overrides_witness :
  upsert (upsert [] (mkDayEntry (mkdate 2019 1 15) good None)) day0
  = upsert [] day0.
Proof. apply upsert_same_date_overrides. reflexivity. Defined.

(** X3.  Upsert keeps the invariant of the store: when no two entries
    share a date, no two entries of the result share a date. *)
Theorem upsert_keeps_dates_distinct (E : list DayEntry) (e : DayEntry) :
  NoDup (entry_date <$> E) -> NoDup (entry_date <$> upsert E e).
Proof.
  intros Hnodup. unfold upsert. rewrite fmap_app. apply NoDup_app.
  split; [|split].
  - apply (sublist_NoDup _ _ Hnodup), fmap_sublist, sublist_filter.
  - intros dt Hin Hin'. apply list_elem_of_singleton in Hin'. subst dt.
    apply list_elem_of_fmap in Hin as (d & Hd & Hin).
    apply list_elem_of_filter in Hin as [Hother _]. by apply Hother.
  - apply NoDup_singleton.
Qed.

Lemma upsert_keeps_dates_distinct_witness :
  NoDup (entry_date <$> upsert [mkDayEntry (mkdate 2019 1 15) good None] day0).
Proof.
  apply upsert_keeps_dates_distinct. apply NoDup_singleton.
Defined.

(** ** The mood vocabulary *)

Lemma DayMood_name_inj m1 m2 : DayMood.name m1 = DayMood.name m2 -> m1 = m2.
Proof. destruct m1, m2; (reflexivity || discriminate). Qed.

Lemma DayMood_color_inj m1 m2 : DayMood.color m1 = DayMood.color m2 -> m1 = m2.
Proof. destruct m1, m2; (reflexivity || discriminate). Qed.

Lemma DayMood_color_not_black m : DayMood.color m <> black.
Proof. destruct m; discriminate. Qed.

(** X4.  Looking a mood up by name is exact: [DayMood[key]] answers the
    member [m] exactly when [key] is the name of [m], letter for letter;
    for every other key, [None] included, it raises [KeyError] with that
    key.  No two members share a name. *)
Theorem DayMood_getitem_exact (key : option string) :
  (forall m, DayMood.getitem key = inr m <-> key = Some (DayMood.name m))
  /\ ((forall m, key <> Some (DayMood.name m)) ->
      DayMood.getitem key = inl (KeyError key))
  /\ (forall m1 m2, DayMood.name m1 = DayMood.name m2 -> m1 = m2).
Proof.
  assert (Hfwd : forall m, DayMood.getitem key = inr m -> key = Some (DayMood.name m)).
  { intros m. unfold DayMood.getitem. destruct key as [s|]; [|discriminate].
    destruct (List.find _ DayMood.members) as [m'|] eqn:Hfind; [|discriminate].
    intros [= ->]. apply List.find_some in Hfind as [_ Heq].
    apply String.eqb_eq in Heq. by rewrite Heq. }
  split; [|split].
  - intros m. split; [apply Hfwd|]. intros ->. apply DayMood_getitem_name.
  - intros Hnone. destruct (DayMood.getitem key) as [e|m] eqn:Hget.
    + unfold DayMood.getitem in Hget. destruct key as [s|].
      * destruct (List.find _ DayMood.members); [discriminate|].
        by injection Hget as <-.
      * by injection Hget as <-.
    + exfalso. by apply (Hnone m), Hfwd.
  - apply DayMood_name_inj.
Qed.

(** ** More on the year grid *)

Lemma filter_nil_Forall {A} (P : A -> Prop) `{!forall x, Decision (P x)} (l : list A) :
  filter P l = [] <-> Forall (fun x => ~ P x) l.
Proof.
  induction l as [|x l IH]; [split; [constructor | reflexivity]|].
  rewrite filter_cons. destruct (decide (P x)) as [Hx|Hx].
  - split; [discriminate|]. intros HF. inversion HF; subst. contradiction.
  - rewrite IH. split; [by constructor|]. intros HF. by inversion HF.
Qed.

(** X5.  The grid tells the entries apart: for entries that hold
    calendar dates, a cell is black exactly when no entry falls on it,
    and it has the colour of the mood [m] exactly when the last entry
    that falls on it has the mood [m].  No mood is shown in the colour
    of an empty cell and no two moods share a colour. *)
Theorem grid_cell_tells_mood (days : list DayEntry) :
  Forall valid_entry days ->
  exists X : grid,
    build_year_grid days = inr X
    /\ forall i j, (i < 31)%nat -> (j < 12)%nat ->
         (cell X i j = Some black <-> Forall (fun e => ~ on_cell i j e) days)
         /\ (forall m,
               cell X i j = Some (DayMood.color m)
               <-> exists e, last (filter (on_cell i j) days) = Some e
                             /\ entry_mood e = m).
Proof.
  intros Hvalid.
  destruct (fill_grid_cells days blank_grid blank_grid_shaped
              (valid_entries_indexable _ Hvalid)) as (X & HX & _ & Hcells).
  exists X. split; [exact HX|]. intros i j Hi Hj.
  rewrite (Hcells i j Hi Hj), (blank_grid_cell i j Hi Hj).
  assert (Hnone : last (filter (on_cell i j) days) = None
                  <-> Forall (fun e => ~ on_cell i j e) days)
    by (rewrite last_None; apply filter_nil_Forall).
  destruct (last (filter (on_cell i j) days)) as [e|]; split.
  - rewrite <- Hnone. split.
    + intros [= H]. by apply DayMood_color_not_black in H.
    + intros [=].
  - intros m. split.
    + intros [= H]. apply DayMood_color_inj in H. eauto.
    + intros (e' & [= <-] & <-). reflexivity.
  - by rewrite <- Hnone.
  - intros m. split.
    + intros [= H]. symmetry in H. by apply DayMood_color_not_black in H.
    + intros (e' & [=] & _).
Qed.

Lemma grid_cell_tells_mood_witness :
  exists X : grid,
    build_year_grid [day0] = inr X
    /\ cell X 14 0 = Some (DayMood.color tired).
Proof.
  assert (Hvalid : Forall valid_entry [day0]) by (repeat constructor).
  destruct (grid_cell_tells_mood [day0] Hvalid) as (X & HX & Hcells).
  exists X. split; [exact HX|].
  apply (proj2 (Hcells 14%nat 0%nat ltac:(lia) ltac:(lia))).
  exists day0. split; reflexivity.
Defined.

Lemma set_pixel_same_pixel X a b :
  same_pixel a b -> set_pixel X a = set_pixel X b.
Proof.
  intros (Hday & Hmonth & Hmood). unfold set_pixel.
  by rewrite Hday, Hmonth, Hmood.
Qed.

(** X6.  The grid ignores the year and the comment: two sequences of
    entries that agree, entry by entry, on day of month, month and mood
    are drawn as the same matrix, so entries of different years fall on
    the same cells. *)
Theorem build_year_grid_ignores_year (days1 days2 : list DayEntry) :
  Forall2 same_pixel days1 days2 ->
  build_year_grid days1 = build_year_grid days2.
Proof.
  unfold build_year_grid. generalize blank_grid.
  intros X H. revert X.
  induction H as [|a b days1 days2 Hab _ IH]; intros X; [reflexivity|].
  cbn [fill_grid]. rewrite (set_pixel_same_pixel X a b Hab).
  destruct (set_pixel X b) as [e|X']; [reflexivity|]. cbn [bind]. apply IH.
Qed.

Lemma build_year_grid_ignores_year_witness :
  build_year_grid [mkDayEntry (mkdate 2019 1 15) tired (Some "long day"%string)]
  = build_year_grid [mkDayEntry (mkdate 2020 1 15) tired None].
Proof.
  apply build_year_grid_ignores_year.
  repeat constructor.
Defined.

(** ** The lines of a file, again *)

Lemma line_ok_cons c l : not_newline c -> line_ok l -> line_ok (c :: l).
Proof.
  intros Hc (body & ending & -> & Hbody & Hend).
  exists (c :: body), ending. split; [reflexivity|]. split; [by constructor|done].
Qed.

Lemma line_ok_ending ending :
  ending = [] \/ ending = [LF] \/ ending = [CR] \/ ending = [CR; LF] ->
  line_ok ending.
Proof. intros H. exists [], ending. split; [reflexivity|]. split; [constructor|done]. Qed.

Lemma readlines_spec s :
  concat (readlines s) = s
  /\ Forall (fun l => l <> []) (readlines s)
  /\ Forall line_ok (readlines s).
Proof.
  induction s as [|c s (IHc & IHn & IHl)]; [by repeat split; constructor|].
  rewrite readlines_cons. cbv zeta.
  assert (Hbreak : concat ([c] :: readlines s) = c :: s
                   /\ Forall (fun l => l <> []) ([c] :: readlines s)
                   /\ (c = LF \/ c = CR -> Forall line_ok ([c] :: readlines s))).
  { split; [cbn; by rewrite IHc|]. split; [by constructor|].
    intros Hc. constructor; [|exact IHl].
    apply line_ok_ending. destruct Hc as [-> | ->]; tauto. }
  destruct Hbreak as (Hb1 & Hb2 & Hb3).
  destruct (decide (c = LF)) as [HLF|HLF]; [by auto|].
  destruct (decide (c = CR)) as [HCR|HCR].
  - destruct s as [|c' s]; [by auto|].
    destruct (decide (c' = LF)) as [->|HLF']; [|by auto].
    rewrite readlines_LF in *. cbn [concat app] in *.
    split; [by rewrite <- IHc|]. split.
    + inversion IHn; subst. by constructor.
    + inversion IHl; subst. constructor; [|assumption].
      apply line_ok_ending. tauto.
  - destruct (readlines s) as [|l ls] eqn:Hlines.
    + cbn in IHc. subst s. split; [reflexivity|]. split; [by repeat constructor|].
      constructor; [|constructor]. apply line_ok_cons; [done|].
      apply line_ok_ending. tauto.
    + cbn [concat app] in *. split; [by rewrite <- IHc|]. split.
      * inversion IHn; subst. by constructor.
      * inversion IHl; subst. constructor; [|assumption].
        by apply line_ok_cons.
Qed.

(** X7.  Iterating the lines of a file opened with [newline=''] loses
    and adds nothing: the lines, put end to end, are the text of the
    file; no line is empty; and every line consists of characters that
    are neither a line feed nor a carriage return, followed by at most
    one ending, which is a line feed, a carriage return, or the two in
    this order. *)
Theorem readlines_partitions_text (s : list ascii) :
  concat (readlines s) = s
  /\ Forall (fun l => l <> []) (readlines s)
  /\ Forall (fun l =>
               exists body ending,
                 l = body ++ ending
                 /\ Forall (fun c => c <> LF /\ c <> CR) body
                 /\ (ending = [] \/ ending = [LF] \/ ending = [CR]
                     \/ ending = [CR; LF]))
            (readlines s).
Proof. apply readlines_spec. Qed.

(** ** Invariants of the reader *)

Lemma length_string_of_list_ascii (l : list ascii) :
  String.length (string_of_list_ascii l) = length l.
Proof. induction l as [|c l IH]; [reflexivity|]. simpl. by rewrite IH. Qed.

Lemma reader_ok_reset : reader_ok parse_reset.
Proof. repeat split; [unfold field_limit; simpl; lia | constructor]. Qed.

Lemma reader_ok_set_state st r : reader_ok r -> reader_ok (set_state st r).
Proof. intros H. exact H. Qed.

Lemma reader_ok_save r : reader_ok r -> reader_ok (parse_save_field r).
Proof.
  intros (Hlen & Hlim & Hfields). split; [reflexivity|].
  split; [unfold field_limit; simpl; lia|].
  cbn [parse_save_field fields]. apply Forall_app. split; [exact Hfields|].
  constructor; [|constructor]. unfold short.
  rewrite length_string_of_list_ascii, length_rev, <- Hlen. exact Hlim.
Qed.

Lemma parse_add_char_spec r c :
  reader_ok r ->
  match parse_add_char r c with
  | inl e => e = limit_error
  | inr r' => reader_ok r' /\ state r' = state r
  end.
Proof.
  intros (Hlen & Hlim & Hfields). unfold parse_add_char.
  destruct (N.leb_spec field_limit (field_len r)); [reflexivity|].
  cbn [ret]. split; [|reflexivity]. split; [|split].
  - cbn [field_len field length]. lia.
  - cbn [field_len]. lia.
  - exact Hfields.
Qed.

Ltac reader_step :=
  repeat match goal with
         | |- context [decide (?a = ?b)] => destruct (decide (a = b))
         | |- context [bool_decide (?a = ?b)] => destruct (bool_decide_reflect (a = b))
         | H : reader_ok ?r |- context [parse_add_char ?r ?c] =>
             let Hadd := fresh "Hadd" in
             pose proof (parse_add_char_spec r c H) as Hadd;
             destruct (parse_add_char r c)
         | H : reader_ok ?r |- context [parse_add_char (set_state ?st ?r) ?c] =>
             let Hadd := fresh "Hadd" in
             pose proof (parse_add_char_spec (set_state st r) c
                           (reader_ok_set_state st r H)) as Hadd;
             destruct (parse_add_char (set_state st r) c)
         end;
  cbn [bind ret orb is_newline after_line_end] in *.

(** A character of a line: outside the state after a line ending, or
    when it is itself part of a line ending, the only error is the field
    limit; and a character that ends no line does not lead to the state
    after a line ending. *)
Lemma parse_process_char_spec r c :
  reader_ok r ->
  state r <> EAT_CRNL \/ is_newline (Ch c) = true ->
  match parse_process_char r (Ch c) with
  | inl e => e = limit_error
  | inr r' =>
      reader_ok r' /\ (is_newline (Ch c) = false -> state r' <> EAT_CRNL)
  end.
Proof.
  intros Hok Hstate. unfold parse_process_char, parse_start_field.
  destruct (state r) eqn:Hst; cbn [is_newline] in *;
    reader_step;
    repeat match goal with
           | H : _ /\ _ |- _ => destruct H
           end;
    try reflexivity; try assumption;
    try (split; [auto using reader_ok_save, reader_ok_set_state|];
         cbn [state set_state parse_save_field]; try congruence; try done).
  all: try (destruct Hstate as [?|?]; [congruence|discriminate]).
Qed.

Lemma parse_process_char_EOL r :
  reader_ok r ->
  exists r', parse_process_char r EOL = inr r' /\ reader_ok r' /\ at_line_start r'.
Proof.
  intros Hok. unfold parse_process_char, parse_start_field, at_line_start.
  destruct (state r) eqn:Hst; eexists; (split; [reflexivity|]);
    (split; [auto using reader_ok_save, reader_ok_set_state|]);
    cbn [state set_state parse_save_field]; auto.
Qed.

Lemma process_chars_body r body :
  reader_ok r -> state r <> EAT_CRNL -> Forall not_newline body ->
  match process_chars r body with
  | inl e => e = limit_error
  | inr r' => reader_ok r' /\ state r' <> EAT_CRNL
  end.
Proof.
  intros Hok Hst Hbody. revert r Hok Hst.
  induction Hbody as [|c body [HLF HCR] _ IH]; intros r Hok Hst; [done|].
  cbn [process_chars].
  pose proof (parse_process_char_spec r c Hok (or_introl Hst)) as Hstep.
  destruct (parse_process_char r (Ch c)) as [e|r1]; [exact Hstep|].
  cbn [bind]. destruct Hstep as [Hok1 Hst1]. apply IH; [exact Hok1|].
  apply Hst1. cbn [is_newline].
  rewrite !bool_decide_eq_false_2 by assumption. reflexivity.
Qed.

Lemma process_chars_ending r ending :
  reader_ok r ->
  ending = [] \/ ending = [LF] \/ ending = [CR] \/ ending = [CR; LF] ->
  match process_chars r ending with
  | inl e => e = limit_error
  | inr r' => reader_ok r'
  end.
Proof.
  intros Hok Hending.
  assert (Hnl : forall r c, reader_ok r -> c = LF \/ c = CR ->
            match parse_process_char r (Ch c) with
            | inl e => e = limit_error
            | inr r' => reader_ok r'
            end).
  { intros r0 c Hok0 Hc.
    pose proof (parse_process_char_spec r0 c Hok0) as Hstep.
    destruct (parse_process_char r0 (Ch c)) as [e|r1]; apply Hstep;
      right; destruct Hc as [-> | ->]; reflexivity. }
  destruct Hending as [->|[->|[->| ->]]]; cbn [process_chars]; [exact Hok|..].
  - pose proof (Hnl r LF Hok (or_introl eq_refl)) as H.
    by destruct (parse_process_char r (Ch LF)).
  - pose proof (Hnl r CR Hok (or_intror eq_refl)) as H.
    by destruct (parse_process_char r (Ch CR)).
  - pose proof (Hnl r CR Hok (or_intror eq_refl)) as H.
    destruct (parse_process_char r (Ch CR)) as [e|r1]; [exact H|]. cbn [bind].
    pose proof (Hnl r1 LF H (or_introl eq_refl)) as H'.
    by destruct (parse_process_char r1 (Ch LF)).
Qed.

Lemma process_chars_app r l1 l2 :
  process_chars r (l1 ++ l2) = (r' <~ process_chars r l1 ;; process_chars r' l2).
Proof.
  revert r. induction l1 as [|c l1 IH]; intros r; [reflexivity|].
  cbn [app process_chars]. destruct (parse_process_char r (Ch c)); [reflexivity|].
  cbn [bind]. apply IH.
Qed.

(** A whole line, from where the machine is when a line begins. *)
Lemma process_line_spec r line :
  reader_ok r -> at_line_start r -> line_ok line ->
  match process_line r line with
  | inl e => e = limit_error
  | inr r' => reader_ok r' /\ at_line_start r'
  end.
Proof.
  intros Hok Hstart (body & ending & -> & Hbody & Hending).
  unfold process_line. rewrite process_chars_app.
  assert (Hst : state r <> EAT_CRNL) by (destruct Hstart as [-> | ->]; discriminate).
  pose proof (process_chars_body r body Hok Hst Hbody) as H1.
  destruct (process_chars r body) as [e|r1]; [exact H1|]. cbn [bind].
  destruct H1 as [Hok1 _].
  pose proof (process_chars_ending r1 ending Hok1 Hending) as H2.
  destruct (process_chars r1 ending) as [e|r2]; [exact H2|]. cbn [bind].
  destruct (parse_process_char_EOL r2 H2) as (r3 & -> & Hok3 & Hstart3).
  by split.
Qed.

(** The loop over the rows keeps what its body keeps, and fails only
    where the body fails or a field is beyond the limit. *)
Section for_rows_sound.
Context {S : Type} (body : S -> list string -> result S).
Context (P : S -> Prop) (Q : exn -> Prop).
Hypothesis Hbody :
  forall st row, P st -> Forall short row ->
    match body st row with
    | inl e => Q e
    | inr st' => P st'
    end.

Lemma for_rows_sound lines :
  forall r st,
    Forall line_ok lines -> reader_ok r -> at_line_start r -> P st ->
    match for_rows body r lines st with
    | inl e => Q e \/ e = limit_error
    | inr st' => P st'
    end.
Proof using Hbody.
  induction lines as [|line lines IH]; intros r st Hlines Hok Hstart HP.
  - cbn [for_rows].
    destruct (negb (field_len r =? 0)%N || bool_decide (state r = IN_QUOTED_FIELD));
      [|exact HP].
    pose proof (Hbody st (fields (parse_save_field r)) HP
                  (proj2 (proj2 (reader_ok_save r Hok)))) as H.
    destruct (body st _); [by left | exact H].
  - inversion Hlines as [|? ? Hline Hrest]; subst. cbn [for_rows].
    pose proof (process_line_spec r line Hok Hstart Hline) as Hstep.
    destruct (process_line r line) as [e|r1]; [by right|]. cbn [bind].
    destruct Hstep as [Hok1 Hstart1].
    destruct (decide (state r1 = START_RECORD)) as [_|_];
      [|by apply IH].
    pose proof (Hbody st (fields r1) HP (proj2 (proj2 Hok1))) as H.
    destruct (body st (fields r1)) as [e|st1]; [by left|]. cbn [bind].
    apply IH; [exact Hrest | exact reader_ok_reset | by left | exact H].
Qed.
End for_rows_sound.

(** X8.  Reading the records of any text, taken line by line as file
    iteration yields it, fails in one way only: a field beyond the field
    limit.  In particular the error for a new-line character in an
    unquoted field cannot occur.  Every field of every record that is
    yielded is within the limit. *)
Theorem csv_reader_outcomes (text : list ascii) :
  match all_rows text with
  | inl e => e = csv_Error "field larger than field limit (131072)"
  | inr rows => Forall (Forall short) rows
  end.
Proof.
  unfold all_rows.
  pose proof (for_rows_sound (fun acc row => ret (acc ++ [row]))
                (Forall (Forall short)) (fun _ => False)) as H.
  specialize (H (fun st row HP Hrow =>
                   proj2 (Forall_app _ st [row])
                     (conj HP (Forall_cons_2 _ _ _ Hrow (Forall_nil_2 _))))).
  specialize (H (readlines text) parse_reset []
                (proj2 (proj2 (readlines_spec text))) reader_ok_reset
                (or_introl eq_refl) (Forall_nil_2 _)).
  destruct (for_rows _ parse_reset (readlines text) []) as [e|rows]; [|exact H].
  by destruct H.
Qed.

(** ** What a load answers *)

Lemma DictReader_row_short fns row :
  Forall short row ->
  map_Forall (fun _ v => short_value v) (DictReader_row fns row).
Proof.
  intros Hrow. unfold DictReader_row.
  assert (Hnone : forall keys (d : gmap string (option string)),
            map_Forall (fun _ v => short_value v) d ->
            map_Forall (fun _ v => short_value v)
              (foldl (fun d key => <[key := None]> d) d keys)).
  { induction keys as [|k keys IH]; intros d Hd; [exact Hd|].
    cbn [foldl]. apply IH. by apply map_Forall_insert_2. }
  apply Hnone.
  assert (Hzip : Forall (fun kv : string * string => short kv.2) (zip fns row)).
  { clear Hnone. revert fns. induction Hrow as [|x row Hx _ IH]; intros [|k fns];
      cbn [zip zip_with]; try constructor; [exact Hx | apply IH]. }
  revert Hzip. generalize (zip fns row). intros kvs Hkvs.
  assert (Hsome : forall (d : gmap string (option string)),
            map_Forall (fun _ v => short_value v) d ->
            map_Forall (fun _ v => short_value v)
              (foldl (fun d kv => <[kv.1 := Some kv.2]> d) d kvs)).
  { induction Hkvs as [|kv kvs Hkv _ IH]; intros d Hd; [exact Hd|].
    cbn [foldl]. apply IH. by apply map_Forall_insert_2. }
  apply Hsome, map_Forall_empty.
Qed.

Lemma entry_of_row_loadable row e :
  map_Forall (fun _ v => short_value v) row ->
  entry_of_row row = inr e -> loadable e.
Proof.
  intros Hrow. unfold entry_of_row, dict_getitem.
  destruct (row !! "date"%string) as [s|]; [|discriminate].
  cbn [bind ret]. destruct (date_from_iso s) as [|d] eqn:Hd; [discriminate|].
  cbn [bind ret]. destruct (row !! "mood"%string) as [m|]; [|discriminate].
  cbn [bind ret]. destruct (DayMood.getitem m) as [|mood]; [discriminate|].
  cbn [bind ret].
  destruct (row !! "comment"%string) as [c|] eqn:Hc; [|discriminate].
  intros [= <-]. split.
  - by apply (date_from_iso_valid s).
  - cbn [entry_comment]. by apply (Hrow "comment"%string).
Qed.

Lemma DictReader_body_sound st row :
  Forall loadable st.2 -> Forall short row ->
  match DictReader_body entry_of_row st row with
  | inl e => row_error e
  | inr st' => Forall loadable st'.2
  end.
Proof.
  intros Hst Hrow. unfold DictReader_body.
  destruct st.1 as [fns|]; [|exact Hst].
  destruct row as [|x row]; [exact Hst|].
  destruct (entry_of_row (DictReader_row fns (x :: row))) as [e|entry] eqn:He.
  - cbn [bind]. by apply (entry_of_row_error _ _ He).
  - cbn [bind ret snd]. apply Forall_app. split; [exact Hst|].
    constructor; [|constructor].
    by apply (entry_of_row_loadable _ _ (DictReader_row_short fns _ Hrow)).
Qed.

Lemma parse_days_sound content :
  match parse_days content with
  | inl e => row_error e \/ e = limit_error
  | inr days => Forall loadable days
  end.
Proof.
  unfold parse_days, DictReader_comprehension.
  pose proof (for_rows_sound (DictReader_body entry_of_row)
                (fun st => Forall loadable st.2) row_error
                DictReader_body_sound (readlines content) parse_reset (None, [])
                (proj2 (proj2 (readlines_spec content))) reader_ok_reset
                (or_introl eq_refl) (Forall_nil_2 _)) as H.
  destruct (for_rows _ parse_reset (readlines content) (None, [])) as [e|st];
    exact H.
Qed.

(** X9.  Whatever the file holds, the entries that
    [read_days_from_file] answers hold calendar dates, and their
    comments are absent or within the field limit of the reader. *)
Theorem loaded_entries_well_formed
    (fs : gmap string (list ascii)) (file : string) (days : list DayEntry) :
  read_days_from_file fs file = inr days ->
  Forall (fun e =>
            valid_date (entry_date e)
            /\ match entry_comment e with
               | Some c => (N.of_nat (String.length c) <= 131072)%N
               | None => True
               end) days.
Proof.
  unfold read_days_from_file. destruct (fs !! file) as [content|]; [|discriminate].
  intros Hparse. pose proof (parse_days_sound content) as H.
  rewrite Hparse in H. exact H.
Qed.

Lemma loaded_entries_well_formed_witness :
  Forall (fun e =>
            valid_date (entry_date e)
            /\ match entry_comment e with
               | Some c => (N.of_nat (String.length c) <= 131072)%N
               | None => True
               end)
    [mkDayEntry (mkdate 2019 1 14) amazing (Some "great day!"%string)].
Proof.
  apply (loaded_entries_well_formed (files world0) "year_in_pixels.csv").
  reflexivity.
Defined.



(** ** Saving and loading again *)

Lemma loadable_fields_short e : loadable e -> Forall short (entry_fields e).
Proof.
  intros (Hvalid & Hshort). unfold entry_fields.
  constructor; [|constructor; [|constructor; [|constructor]]].
  - unfold short. rewrite (isoformat_length _ Hvalid). unfold field_limit. lia.
  - unfold short, field_limit.
    destruct (entry_mood e); cbn [DayMood.name String.length]; lia.
  - destruct (entry_comment e) as [c|]; [exact Hshort|].
    unfold short, field_limit. cbn. lia.
Qed.

Lemma DictReader_body_loadable e acc :
  loadable e ->
  DictReader_body entry_of_row (Some fieldnames, acc) (entry_fields e)
  = inr (Some fieldnames, acc ++ [normalize e]).
Proof.
  intros (Hvalid & _). destruct e as [d m comment].
  unfold DictReader_body, entry_fields, fieldnames, normalize. cbn [fst snd].
  unfold DictReader_row. cbn [zip zip_with foldl length drop fst snd].
  unfold entry_of_row, dict_getitem.
  do 2 (rewrite lookup_insert_ne by discriminate). rewrite lookup_insert_eq.
  cbn [bind ret entry_date entry_mood entry_comment].
  rewrite (date_from_iso_isoformat d Hvalid). cbn [bind ret].
  rewrite lookup_insert_ne by discriminate. rewrite lookup_insert_eq.
  cbn [bind ret]. rewrite DayMood_getitem_name. cbn [bind ret].
  rewrite lookup_insert_eq. reflexivity.
Qed.

Lemma parse_rows_loadable days :
  forall acc, Forall loadable days ->
  for_rows (DictReader_body entry_of_row) parse_reset
    (readlines (concat (row_text <$> days))) (Some fieldnames, acc)
  = inr (Some fieldnames, acc ++ (normalize <$> days)).
Proof.
  induction days as [|e days IH]; intros acc Hall.
  - cbn [fmap list_fmap concat]. rewrite for_rows_end. by rewrite app_nil_r.
  - inversion Hall as [|? ? He Hdays]; subst.
    cbn [fmap list_fmap concat].
    pose proof (loadable_fields_short e He) as Hshort.
    pose proof (DictReader_body_loadable e acc He) as Hbody.
    unfold row_text at 1. unfold entry_fields in *.
    rewrite for_rows_record by exact Hshort.
    rewrite Hbody. cbn [bind ret].
    rewrite (IH _ Hdays). by rewrite <- app_assoc.
Qed.

Lemma parse_days_serialized_loadable days :
  Forall loadable days ->
  parse_days (writer_writerow fieldnames ++ concat (row_text <$> days))
  = inr (normalize <$> days).
Proof.
  intros Hall. unfold parse_days, DictReader_comprehension.
  unfold fieldnames at 1.
  rewrite for_rows_record
    by (repeat constructor; unfold short, field_limit; simpl; lia).
  cbn [DictReader_body fst snd bind ret].
  change ["date"; "mood"; "comment"]%string with fieldnames.
  rewrite (parse_rows_loadable days [] Hall). reflexivity.
Qed.

Lemma normalize_storable e : storable e -> normalize e = e.
Proof. intros (_ & c & Hc & _). destruct e. cbn in *. by subst. Qed.

Lemma storable_loadable e : storable e -> loadable e.
Proof. intros (Hvalid & c & Hc & Hshort). split; [exact Hvalid|]. by rewrite Hc. Qed.

(** X11.  Writing never raises, whatever the entries: the text is the
    header record followed by a record per entry, in order.  For entries
    that hold calendar dates and whose comments are absent or within the
    field limit, reading the text back gives the entries again, in
    order, with every absent comment replaced by the empty text and
    nothing else changed. *)
Theorem save_load_normalizes (days : list DayEntry) :
  serialize days
  = inr (writer_writerow fieldnames ++ concat (row_text <$> days))
  /\ (Forall loadable days ->
      parse_days (writer_writerow fieldnames ++ concat (row_text <$> days))
      = inr (normalize <$> days))
  /\ (forall e, is_Some (entry_comment e) -> normalize e = e).
Proof.
  split; [apply serialize_eq|]. split; [apply parse_days_serialized_loadable|].
  intros [d m c] [c' Hc]. cbn in Hc. subst c. reflexivity.
Qed.

(** X12.  Loading is a fixed point of rewriting: when a text loads as
    the entries [days], then writing [days] and loading the result gives
    [days] again, except that absent comments, which come from rows
    without a comment column, are now empty texts. *)
Theorem reload_after_rewrite (content : list ascii) (days : list DayEntry) :
  parse_days content = inr days ->
  exists text,
    serialize days = inr text
    /\ parse_days text = inr (normalize <$> days).
Proof.
  intros Hparse. eexists. split; [apply serialize_eq|].
  apply parse_days_serialized_loadable.
  pose proof (parse_days_sound content) as H. by rewrite Hparse in H.
Qed.

Lemma reload_after_rewrite_witness :
  exists text,
    serialize [mkDayEntry (mkdate 2019 1 14) amazing (Some "great day!"%string)]
    = inr text
    /\ parse_days text
       = inr [mkDayEntry (mkdate 2019 1 14) amazing (Some "great day!"%string)].
Proof.
  assert (Hparse : parse_days store0
                   = inr [mkDayEntry (mkdate 2019 1 14) amazing
                                     (Some "great day!"%string)])
    by (vm_compute; reflexivity).
  destruct (reload_after_rewrite _ _ Hparse) as (text & Hser & Hload).
  exists text. split; [exact Hser | exact Hload].
Defined.

(** ** The commands, end to end *)

Lemma loadable_indexable days :
  Forall loadable days -> Forall (fun e => grid_indexable (entry_date e)) days.
Proof.
  intros H. eapply Forall_impl; [exact H|].
  intros e [Hvalid _]. by apply valid_date_indexable.
Qed.

Lemma read_days_from_file_loadable fs file days :
  read_days_from_file fs file = inr days -> Forall loadable days.
Proof.
  unfold read_days_from_file. destruct (fs !! file) as [content|]; [|discriminate].
  intros Hparse. pose proof (parse_days_sound content) as H.
  by rewrite Hparse in H.
Qed.

(** X13.  The [render] command fails only where loading fails: the
    drawing itself never raises, because every loaded date is within the
    grid.  It shows nothing exactly when the store loads as no entries,
    and otherwise shows the 31 by 12 matrix of the loaded entries. *)
Theorem render_command_outcomes (fs : gmap string (list ascii)) (file : string) :
  match render_command fs file with
  | inl e => read_days_from_file fs file = inl e
  | inr None => read_days_from_file fs file = inr []
  | inr (Some X) =>
      exists days,
        read_days_from_file fs file = inr days
        /\ days <> []
        /\ build_year_grid days = inr X
        /\ length X = 31%nat
        /\ Forall (fun row => length row = 12%nat) X
  end.
Proof.
  unfold render_command.
  destruct (read_days_from_file fs file) as [e|days] eqn:Hread; [reflexivity|].
  cbn [bind]. destruct days as [|d days]; [reflexivity|].
  pose proof (read_days_from_file_loadable _ _ _ Hread) as Hload.
  destruct (fill_grid_cells (d :: days) blank_grid blank_grid_shaped
              (loadable_indexable _ Hload)) as (X & HX & [Hlen Hrows] & _).
  unfold display_year, build_year_grid. rewrite HX. cbn [bind ret].
  exists (d :: days). repeat split; try done.
Qed.

Lemma save_success env file days wd name :
  temp_name env (files wd) = Some name -> name <> file ->
  covers (writes_left wd) (Datatypes.S (length days)) = true ->
  exists wd',
    save env file days wd = (inr tt, wd')
    /\ files wd' !! file
       = Some (writer_writerow fieldnames ++ concat (row_text <$> days))
    /\ files wd' !! name = None
    /\ (forall p, p <> file -> p <> name -> files wd' !! p = files wd !! p)
    /\ writes_left wd'
       = budget_after (writes_left wd) (Datatypes.S (length days)).
Proof.
  intros Hname Hne Hcovers.
  unfold save, io_bind. rewrite (write_temporary_run _ _ _ _ Hname), Hcovers.
  assert (Hdone : writes_done (writes_left wd) (Datatypes.S (length days))
                  = Datatypes.S (length days)).
  { destruct (writes_left wd) as [k|]; [|reflexivity].
    unfold covers in Hcovers. unfold writes_done.
    apply Nat.leb_le in Hcovers. lia. }
  rewrite Hdone.
  rewrite firstn_all2 by (cbn [length]; rewrite length_fmap; lia).
  match goal with
  | |- context [shutil_move env name file (mkWorld (<[name := ?c]> ?F) ?ev ?b)] =>
      destruct (shutil_move_run env name file c F ev b Hne)
        as (F' & -> & Hfile & Hgone & Hothers)
  end.
  eexists. split; [reflexivity|]. cbn [files concat writes_left].
  split; [exact Hfile|]. split; [exact Hgone|]. split; [exact Hothers|].
  reflexivity.
Qed.

Lemma save_failure env file days wd name :
  temp_name env (files wd) = Some name -> name <> file ->
  covers (writes_left wd) (Datatypes.S (length days)) = false ->
  exists wd',
    save env file days wd = (inl OSError, wd')
    /\ forall p, p <> name -> files wd' !! p = files wd !! p.
Proof.
  intros Hname Hne Hcovers.
  unfold save, io_bind. rewrite (write_temporary_run _ _ _ _ Hname), Hcovers.
  eexists. split; [reflexivity|]. cbn [files].
  intros p Hp. by rewrite lookup_insert_ne.
Qed.

Lemma upsert_loadable days day :
  Forall loadable days -> loadable day -> Forall loadable (upsert days day).
Proof.
  intros Hdays Hday. unfold upsert. apply Forall_app. split.
  - apply Forall_forall. intros e He. apply list_elem_of_filter in He as [_ He].
    rewrite Forall_forall in Hdays. by apply Hdays.
  - by constructor.
Qed.

Lemma log_success env file day wd name days :
  read_days_from_file (files wd) file = inr days ->
  storable day ->
  temp_name env (files wd) = Some name ->
  covers (writes_left wd) (Datatypes.S (length (upsert days day))) = true ->
  exists wd',
    log_command env file day wd = (inr tt, wd')
    /\ read_days_from_file (files wd') file
       = inr ((normalize <$> filter (other_date day) days) ++ [day])
    /\ files wd' !! name = None
    /\ (forall p, p <> file -> p <> name -> files wd' !! p = files wd !! p)
    /\ writes_left wd'
       = budget_after (writes_left wd)
                      (Datatypes.S (length (upsert days day))).
Proof.
  intros Hread Hday Hname Hcovers.
  assert (Hne : name <> file).
  { destruct (temp_name_fresh _ _ _ Hname) as (n & _ & _ & Hfresh).
    intros ->. unfold read_days_from_file in Hread. by rewrite Hfresh in Hread. }
  pose proof (read_days_from_file_loadable _ _ _ Hread) as Hload.
  unfold log_command. rewrite Hread.
  destruct (save_success env file (upsert days day) wd name Hname Hne Hcovers)
    as (wd' & -> & Hfile & Hgone & Hothers & Hleft).
  exists wd'. split; [reflexivity|]. split; [|repeat split; assumption].
  unfold read_days_from_file. rewrite Hfile.
  rewrite parse_days_serialized_loadable
    by (apply upsert_loadable; [exact Hload | by apply storable_loadable]).
  unfold upsert. rewrite fmap_app. cbn [fmap list_fmap].
  by rewrite (normalize_storable day Hday).
Qed.





(** X16.  A store that does not load is never overwritten: when there is
    a file at the path and loading it raises, the [log] command raises
    the same exception and asks nothing of the file system; the world is
    what it was. *)
Theorem log_keeps_unreadable_store
    (env : environ) (file : string) (day : DayEntry) (wd : world) (e : exn) :
  is_Some (files wd !! file) ->
  read_days_from_file (files wd) file = inl e ->
  log_command env file day wd = (inl e, wd).
Proof.
  intros [content Hfile] Hread. unfold log_command. rewrite Hread.
  destruct e; try reflexivity.
  unfold read_days_from_file in Hread. rewrite Hfile in Hread.
  pose proof (parse_days_sound content) as H. rewrite Hread in H.
  unfold row_error, limit_error in H.
  destruct H as [[H|[[? H]|[? H]]]|H]; discriminate H.
Qed.

Lemma log_keeps_unreadable_store_witness :
  log_command env0 "year_in_pixels.csv" day0
    (mkWorld {[ "year_in_pixels.csv"%string := store_weird ]} [] None)
  = (inl (KeyError (Some "weird"%string)),
     mkWorld {[ "year_in_pixels.csv"%string := store_weird ]} [] None).
Proof.
  apply log_keeps_unreadable_store.
  - eexists. reflexivity.
  - vm_compute. reflexivity.
Defined.

Lemma last_filter_snoc {A} (P : A -> Prop) `{!forall x, Decision (P x)} l x :
  P x -> last (filter P (l ++ [x])) = Some x.
Proof.
  intros Hx. rewrite filter_app, filter_cons_True by exact Hx.
  rewrite filter_nil. apply last_snoc.
Qed.



(** ** Asking for the day *)

Lemma print_moods_run ms con :
  exists out,
    print_moods ms con = (inr tt, mkConsole (stdin con) (stdout con ++ out)).
Proof.
  revert con. induction ms as [|m ms IH]; intros con.
  - exists []. cbn [print_moods interact_ret]. rewrite app_nil_r. by destruct con.
  - cbn [print_moods]. unfold interact_bind, print at 1.
    match goal with
    | |- context [print_moods ms ?c] => destruct (IH c) as (out & ->)
    end.
    eexists. cbn [stdin stdout]. by rewrite <- app_assoc.
Qed.

(** The date stage: what is made of the first line. *)
Lemma date_stage_cases s :
  (s = EmptyString
   \/ (s <> EmptyString /\ exists d, date_from_iso (Some s) = inr d))
  \/ (s <> EmptyString /\ exists msg, date_from_iso (Some s) = inl (ValueError msg)).
Proof.
  destruct s as [|c s]; [by left; left|].
  destruct (date_from_iso (Some (String c s))) as [e|d] eqn:Hd.
  - right. split; [discriminate|].
    destruct (date_from_iso_error _ _ Hd) as [->|[msg ->]]; [|eauto].
    unfold date_from_iso, strptime_Ymd in Hd.
    destruct (re_match_Ymd _) as [[Y [[M D] rest]]|]; [|discriminate].
    destruct rest; [|discriminate]. unfold check_date_fields in Hd.
    repeat match type of Hd with
           | (if ?b then _ else _) = _ => destruct b
           end; discriminate.
  - left. right. split; [discriminate | eauto].
Qed.

Lemma DayMood_getitem_error s e :
  DayMood.getitem (Some s) = inl e -> e = KeyError (Some s).
Proof.
  unfold DayMood.getitem. destruct (List.find _ _); [discriminate|].
  by intros [= <-].
Qed.

(** What [enter_daily_data] does with the three lines it may read. *)
Lemma enter_daily_data_run today1 today2 con R :
  enter_daily_data today1 today2 con = R ->
  match stdin con with
  | [] => exists out, R = (inl EOFError, mkConsole [] (stdout con ++ out))
  | s1 :: rest1 =>
      match (match s1 with
             | EmptyString => inr today1
             | String _ _ => date_from_iso (Some s1)
             end) with
      | inl _ =>
          exists out,
            R = (inl (SystemExit 1), mkConsole rest1 (stdout con ++ out))
            /\ last out = Some (("Invalid date: " +:+ in_quotes s1) +:+ newline)
      | inr d =>
          match rest1 with
          | [] => exists out, R = (inl EOFError, mkConsole [] (stdout con ++ out))
          | s2 :: rest2 =>
              match DayMood.getitem (Some s2) with
              | inl _ =>
                  exists out,
                    R = (inl (SystemExit 1), mkConsole rest2 (stdout con ++ out))
                    /\ last out
                       = Some (("Invalid mood string: " +:+ in_quotes s2)
                               +:+ newline)
              | inr m =>
                  match rest2 with
                  | [] =>
                      exists out,
                        R = (inl EOFError, mkConsole [] (stdout con ++ out))
                  | s3 :: rest3 =>
                      exists out,
                        R = (inr (mkDayEntry d m (Some s3)),
                             mkConsole rest3 (stdout con ++ out))
                  end
              end
          end
      end
  end.
Proof.
  intros HR. symmetry in HR.
  unfold enter_daily_data in HR.
  unfold interact_bind at 1, print at 1 in HR. cbn [stdin stdout] in HR.
  unfold interact_bind at 1, input at 1 in HR. cbn [stdin stdout] in HR.
  destruct (stdin con) as [|s1 rest1].
  { rewrite <- !app_assoc in HR. subst R. eexists. reflexivity. }
  unfold interact_bind at 1 in HR.
  assert (Hstage :
    match (match s1 with
           | EmptyString => inr today1
           | String _ _ => date_from_iso (Some s1)
           end) with
    | inl e => exists msg, e = ValueError msg
    | inr _ => True
    end).
  { destruct s1 as [|c s1]; [exact I|].
    destruct (date_stage_cases (String c s1)) as [[?|(_ & d & ->)]|(_ & msg & ->)];
      [discriminate|exact I|]. eauto. }
  assert (Hrest : forall d con1 R1,
    R1 = (_ <-- print ("How was your mood "
               +:+ (if decide (d = today2) then "today" else "on " +:+ isoformat d)
               +:+ "? Please enter one of the following:") ;;
          _ <-- print_moods DayMood.members ;;
          s <-- input "> " ;;
          mood <-- match DayMood.getitem (Some s) with
                   | inr m => interact_ret m
                   | inl (KeyError _) =>
                       _ <-- print ("Invalid mood string: " +:+ in_quotes s) ;;
                       exit 1
                   | inl e => fun con => (inl (Raised e), con)
                   end ;;
          _ <-- print ("If you like, you can enter a comment how this was a "
                       +:+ DayMood.name mood +:+ " day.") ;;
          comment <-- input "> " ;;
          interact_ret (mkDayEntry d mood (Some comment))) con1 ->
    match stdin con1 with
    | [] => exists out, R1 = (inl EOFError, mkConsole [] (stdout con1 ++ out))
    | s2 :: rest2 =>
        match DayMood.getitem (Some s2) with
        | inl _ =>
            exists out,
              R1 = (inl (SystemExit 1), mkConsole rest2 (stdout con1 ++ out))
              /\ last out
                 = Some (("Invalid mood string: " +:+ in_quotes s2) +:+ newline)
        | inr m =>
            match rest2 with
            | [] =>
                exists out,
                  R1 = (inl EOFError, mkConsole [] (stdout con1 ++ out))
            | s3 :: rest3 =>
                exists out,
                  R1 = (inr (mkDayEntry d m (Some s3)),
                        mkConsole rest3 (stdout con1 ++ out))
            end
        end
    end).
  { intros d con1 R1 HR1.
    unfold interact_bind at 1, print at 1 in HR1. cbn [stdin stdout] in HR1.
    unfold interact_bind at 1 in HR1.
    match type of HR1 with
    | context [print_moods DayMood.members ?c0] =>
        destruct (print_moods_run DayMood.members c0) as (outm & Hm);
        rewrite Hm in HR1; clear Hm
    end.
    cbn [stdin stdout] in HR1.
    unfold interact_bind at 1, input at 1 in HR1. cbn [stdin stdout] in HR1.
    destruct (stdin con1) as [|s2 rest2].
    { rewrite <- !app_assoc in HR1. subst R1. eexists. reflexivity. }
    unfold interact_bind at 1 in HR1.
    destruct (DayMood.getitem (Some s2)) as [e|m] eqn:Hm.
    { apply DayMood_getitem_error in Hm as ->.
      unfold interact_bind at 1, print at 1, exit in HR1.
      cbn [stdin stdout] in HR1.
      rewrite <- !app_assoc in HR1. subst R1. eexists. split; [reflexivity|].
      rewrite !app_assoc. apply last_snoc. }
    cbn [interact_ret] in HR1.
    unfold interact_bind at 1, print at 1 in HR1. cbn [stdin stdout] in HR1.
    unfold interact_bind at 1, input at 1 in HR1. cbn [stdin stdout] in HR1.
    destruct rest2 as [|s3 rest3]; rewrite <- !app_assoc in HR1; subst R1;
      eexists; reflexivity. }
  assert (Hglue : forall d con1,
    stdout con1 = stdout con
                  ++ [("Which date do you want to log for? ["
                         +:+ isoformat today1 +:+ "]") +:+ newline]
                  ++ ["> "%string] ->
    stdin con1 = rest1 ->
    forall R1,
      match stdin con1 with
      | [] => exists out, R1 = (inl EOFError, mkConsole [] (stdout con1 ++ out))
      | s2 :: rest2 =>
          match DayMood.getitem (Some s2) with
          | inl _ =>
              exists out,
                R1 = (inl (SystemExit 1), mkConsole rest2 (stdout con1 ++ out))
                /\ last out
                   = Some (("Invalid mood string: " +:+ in_quotes s2) +:+ newline)
          | inr m =>
              match rest2 with
              | [] =>
                  exists out,
                    R1 = (inl EOFError, mkConsole [] (stdout con1 ++ out))
              | s3 :: rest3 =>
                  exists out,
                    R1 = (inr (mkDayEntry d m (Some s3)),
                          mkConsole rest3 (stdout con1 ++ out))
              end
          end
      end ->
      match rest1 with
      | [] => exists out, R1 = (inl EOFError, mkConsole [] (stdout con ++ out))
      | s2 :: rest2 =>
          match DayMood.getitem (Some s2) with
          | inl _ =>
              exists out,
                R1 = (inl (SystemExit 1), mkConsole rest2 (stdout con ++ out))
                /\ last out
                   = Some (("Invalid mood string: " +:+ in_quotes s2) +:+ newline)
          | inr m =>
              match rest2 with
              | [] =>
                  exists out,
                    R1 = (inl EOFError, mkConsole [] (stdout con ++ out))
              | s3 :: rest3 =>
                  exists out,
                    R1 = (inr (mkDayEntry d m (Some s3)),
                          mkConsole rest3 (stdout con ++ out))
              end
          end
      end).
  { intros d con1 Hout Hin R1. rewrite Hin, Hout.
    destruct rest1 as [|s2 rest2].
    { intros (out & ->). rewrite <- !app_assoc. eauto. }
    destruct (DayMood.getitem (Some s2)) as [e|m].
    { intros (out & -> & Hlast). rewrite <- !app_assoc. eexists.
      split; [reflexivity|]. rewrite !last_app, Hlast. reflexivity. }
    destruct rest2 as [|s3 rest3]; intros (out & ->);
      rewrite <- !app_assoc; eauto. }
  destruct s1 as [|c s1].
  - cbn [interact_ret] in HR. rewrite <- app_assoc in HR.
    match type of HR with
    | R = _ ?c1 => apply (Hglue today1 c1 eq_refl eq_refl R), Hrest, HR
    end.
  - destruct (date_from_iso (Some (String c s1))) as [e|d] eqn:Hd.
    + destruct Hstage as (msg & ->).
      unfold interact_bind at 1, print at 1, exit in HR. cbn [stdin stdout] in HR.
      rewrite <- !app_assoc in HR. subst R. eexists. split; [reflexivity|].
      rewrite !app_assoc. apply last_snoc.
    + cbn [interact_ret] in HR. rewrite <- app_assoc in HR.
      match type of HR with
      | R = _ ?c1 => apply (Hglue d c1 eq_refl eq_refl R), Hrest, HR
      end.
Qed.

(** X18.  [enter_daily_data] answers an entry exactly when three lines
    can be read of which the first is empty or reads as a date and the
    second is the name of a mood.  The entry then has the date of today
    (as first asked) for an empty first line and the date read
    otherwise, the mood of that name, and the third line, whatever it
    is, as its comment; exactly three lines are consumed.  When today is
    a calendar date, so is the date of the entry. *)
Theorem enter_daily_data_answers (today1 today2 : date) (con : console) :
  (forall e con',
     enter_daily_data today1 today2 con = (inr e, con') ->
     exists s1 s2 s3,
       stdin con = s1 :: s2 :: s3 :: stdin con'
       /\ ((s1 = EmptyString /\ entry_date e = today1)
           \/ (s1 <> EmptyString /\ date_from_iso (Some s1) = inr (entry_date e)))
       /\ s2 = DayMood.name (entry_mood e)
       /\ entry_comment e = Some s3
       /\ (valid_date today1 -> valid_date (entry_date e)))
  /\ (forall s1 s2 s3 rest d m,
        stdin con = s1 :: s2 :: s3 :: rest ->
        (s1 = EmptyString /\ d = today1)
        \/ (s1 <> EmptyString /\ date_from_iso (Some s1) = inr d) ->
        s2 = DayMood.name m ->
        exists out,
          enter_daily_data today1 today2 con
          = (inr (mkDayEntry d m (Some s3)), mkConsole rest (stdout con ++ out))).
Proof.
  pose proof (enter_daily_data_run today1 today2 con _ eq_refl) as Hrun.
  split.
  - intros e con' He. rewrite He in Hrun.
    destruct (stdin con) as [|s1 rest1]; [by destruct Hrun as (? & [=])|].
    destruct (match s1 with
              | EmptyString => inr today1
              | String _ _ => date_from_iso (Some s1)
              end) as [err|d] eqn:Hdate;
      [by destruct Hrun as (? & [=] & _)|].
    destruct rest1 as [|s2 rest2]; [by destruct Hrun as (? & [=])|].
    destruct (DayMood.getitem (Some s2)) as [err|m] eqn:Hmood;
      [by destruct Hrun as (? & [=] & _)|].
    destruct rest2 as [|s3 rest3]; [by destruct Hrun as (? & [=])|].
    destruct Hrun as (out & [= -> ->]). cbn [stdin entry_date entry_mood entry_comment].
    exists s1, s2, s3. split; [reflexivity|]. split; [|split; [|split]].
    + destruct s1 as [|c s1]; [left; by injection Hdate as <-|].
      right. split; [discriminate | exact Hdate].
    + unfold DayMood.getitem in Hmood.
      destruct (List.find _ DayMood.members) as [m'|] eqn:Hfind; [|discriminate].
      injection Hmood as ->. apply List.find_some in Hfind as [_ Heq].
      by apply String.eqb_eq in Heq.
    + reflexivity.
    + intros Htoday. destruct s1 as [|c s1]; [by injection Hdate as <-|].
      by apply (date_from_iso_valid _ _ Hdate).
  - intros s1 s2 s3 rest d m Hin Hdate ->. rewrite Hin in Hrun.
    assert (Hstage : (match s1 with
                      | EmptyString => inr today1
                      | String _ _ => date_from_iso (Some s1)
                      end) = inr d).
    { destruct Hdate as [[-> ->]|[Hne Hd]]; [reflexivity|].
      by destruct s1. }
    rewrite Hstage, DayMood_getitem_name in Hrun. exact Hrun.
Qed.

(** X19.  [enter_daily_data] does not ask again.  A first line that is
    not empty and does not read as a date ends the program with exit
    status 1 after that one line, and a second line that is no mood name
    ends it with exit status 1 after those two lines; in both cases the
    last text written names the offending line in quotes.  When the
    input ends before three lines are read, and no line so far was
    rejected, the interaction ends with [EOFError]. *)
Theorem enter_daily_data_rejects (today1 today2 : date) (con : console) :
  (forall s1 rest,
     stdin con = s1 :: rest -> s1 <> EmptyString ->
     raises (date_from_iso (Some s1)) ->
     exists out,
       enter_daily_data today1 today2 con
       = (inl (SystemExit 1), mkConsole rest (stdout con ++ out))
       /\ last out = Some (("Invalid date: " +:+ in_quotes s1) +:+ newline))
  /\ (forall s1 s2 rest,
        stdin con = s1 :: s2 :: rest ->
        s1 = EmptyString \/ ~ raises (date_from_iso (Some s1)) ->
        (forall m, s2 <> DayMood.name m) ->
        exists out,
          enter_daily_data today1 today2 con
          = (inl (SystemExit 1), mkConsole rest (stdout con ++ out))
          /\ last out
             = Some (("Invalid mood string: " +:+ in_quotes s2) +:+ newline))
  /\ (stdin con = [] ->
      exists out,
        enter_daily_data today1 today2 con
        = (inl EOFError, mkConsole [] (stdout con ++ out))).
Proof.
  pose proof (enter_daily_data_run today1 today2 con _ eq_refl) as Hrun.
  split; [|split].
  - intros s1 rest Hin Hne [e He]. rewrite Hin in Hrun.
    destruct s1 as [|c s1]; [done|]. by rewrite He in Hrun.
  - intros s1 s2 rest Hin Hdate Hmood. rewrite Hin in Hrun.
    destruct (match s1 with
              | EmptyString => inr today1
              | String _ _ => date_from_iso (Some s1)
              end) as [err|d] eqn:Hstage.
    + exfalso. destruct Hdate as [->|Hok]; [discriminate|].
      apply Hok. destruct s1; [discriminate|]. by exists err.
    + destruct (DayMood.getitem (Some s2)) as [err|m] eqn:Hget; [exact Hrun|].
      exfalso. apply (Hmood m).
      unfold DayMood.getitem in Hget.
      destruct (List.find _ DayMood.members) as [m'|] eqn:Hfind; [|discriminate].
      injection Hget as ->. apply List.find_some in Hfind as [_ Heq].
      by apply String.eqb_eq in Heq.
  - intros Hin. by rewrite Hin in Hrun.
Qed.

(** ** Entries as text *)

Lemma append_inj_length (a1 b1 a2 b2 : string) :
  String.length a1 = String.length a2 ->
  a1 +:+ b1 = a2 +:+ b2 -> a1 = a2 /\ b1 = b2.
Proof.
  revert a2. induction a1 as [|c a1 IH]; intros [|c' a2] Hlen; try discriminate.
  - by rewrite !append_empty_l.
  - rewrite !append_cons. intros [= -> H]. injection Hlen as Hlen.
    by destruct (IH a2 Hlen H) as [-> ->].
Qed.

Lemma append_cancel_r (a b c : string) : a +:+ c = b +:+ c -> a = b.
Proof.
  intros H. apply (append_inj_length a c b c); [|exact H].
  apply (f_equal String.length) in H. rewrite !string_length_append in H. lia.
Qed.

Lemma isoformat_inj d1 d2 :
  valid_date d1 -> valid_date d2 -> isoformat d1 = isoformat d2 -> d1 = d2.
Proof.
  intros H1 H2 Heq. apply date_from_iso_isoformat in H1, H2.
  rewrite Heq in H1. congruence.
Qed.

Lemma desc_prefix_inj m1 m2 t1 t2 :
  DayMood.desc m1 +:+ t1 = DayMood.desc m2 +:+ t2 -> m1 = m2.
Proof.
  destruct m1, m2; try reflexivity; unfold DayMood.desc;
    rewrite !append_cons; discriminate.
Qed.

Lemma DayEntry_str_unfold e :
  exists tail,
    DayEntry_str e
    = isoformat (entry_date e) +:+ ": " +:+ DayMood.desc (entry_mood e) +:+ tail
    /\ ((tail = EmptyString /\ default EmptyString (entry_comment e) = EmptyString)
        \/ (exists c, entry_comment e = Some c /\ c <> EmptyString
                      /\ tail = " (" +:+ c +:+ ")")).
Proof.
  unfold DayEntry_str. destruct (entry_comment e) as [[|c rest]|].
  - exists EmptyString. rewrite append_empty_r. split; [reflexivity|]. by left.
  - eexists. split; [reflexivity|]. right. eexists. by repeat split.
  - exists EmptyString. rewrite append_empty_r. split; [reflexivity|]. by left.
Qed.

(** X20.  The text of an entry tells the entry: for entries that hold
    calendar dates, equal texts of [str] mean equal dates, equal moods
    and equal comments, an absent comment counting as the empty one. *)
Theorem DayEntry_str_tells_entry (e1 e2 : DayEntry) :
  valid_entry e1 -> valid_entry e2 ->
  DayEntry_str e1 = DayEntry_str e2 ->
  entry_date e1 = entry_date e2
  /\ entry_mood e1 = entry_mood e2
  /\ default EmptyString (entry_comment e1)
     = default EmptyString (entry_comment e2).
Proof.
  intros H1 H2 Heq.
  destruct (DayEntry_str_unfold e1) as (t1 & Hs1 & Ht1).
  destruct (DayEntry_str_unfold e2) as (t2 & Hs2 & Ht2).
  rewrite Hs1, Hs2 in Heq.
  apply append_inj_length in Heq as [Hiso Heq];
    [|by rewrite !isoformat_length].
  split; [by apply isoformat_inj|].
  rewrite !append_cons, !append_empty_l in Heq. injection Heq as Heq.
  pose proof (desc_prefix_inj _ _ _ _ Heq) as Hmood.
  split; [exact Hmood|].
  rewrite Hmood in Heq. apply String.app_inj in Heq.
  destruct Ht1 as [[-> Hc1]|(c1 & Hc1 & _ & ->)],
           Ht2 as [[-> Hc2]|(c2 & Hc2 & _ & ->)].
  - by rewrite Hc1, Hc2.
  - rewrite !append_cons in Heq. discriminate.
  - rewrite !append_cons in Heq. discriminate.
  - rewrite !append_cons, !append_empty_l in Heq. injection Heq as Heq.
    apply append_cancel_r in Heq. by rewrite Hc1, Hc2, Heq.
Qed.

Lemma DayEntry_str_tells_entry_witness :
  entry_mood (mkDayEntry (mkdate 2019 1 14) sad None)
  = entry_mood (mkDayEntry (mkdate 2019 1 14) sad (Some EmptyString)).
Proof.
  refine (proj1 (proj2 (DayEntry_str_tells_entry
                          (mkDayEntry (mkdate 2019 1 14) sad None)
                          (mkDayEntry (mkdate 2019 1 14) sad (Some EmptyString))
                          _ _ _))); reflexivity.
Defined.

(** ** Logging again *)

Lemma normalize_idempotent e : normalize (normalize e) = normalize e.
Proof. reflexivity. Qed.

Lemma filter_other_date_normalize b (l : list DayEntry) :
  filter (other_date b) (normalize <$> l) = normalize <$> filter (other_date b) l.
Proof.
  induction l as [|e l IH]; [reflexivity|].
  cbn [fmap list_fmap]. rewrite !filter_cons.
  change (other_date b (normalize e)) with (other_date b e).
  destruct (decide (other_date b e)); cbn [fmap list_fmap]; by rewrite <- IH.
Qed.



(** ** The text of a date *)

Lemma format_0d_2_digits :
  Forall (fun n =>
            exists a b, format_0d 2 n = String a (String b EmptyString)
                        /\ is_digit a = true /\ is_digit b = true)
         (seqZ 1 31).
Proof.
  assert (H : Forall (fun n =>
                match format_0d 2 n with
                | String a (String b EmptyString) => is_digit a && is_digit b
                | _ => false
                end = true) (seqZ 1 31)).
  { eapply bool_decide_unpack. vm_compute. exact I. }
  eapply Forall_impl; [exact H|]. intros n Hn. cbv beta in Hn.
  destruct (format_0d 2 n) as [|a [|b [|? ?]]]; try discriminate.
  apply andb_true_iff in Hn as [? ?]. eauto.
Qed.

(** X22.  The text of a calendar date, as it is written to the store
    and shown on the console, always has the form YYYY-MM-DD: ten
    characters, digits but for the two dashes.  Different calendar dates
    have different texts. *)
Theorem isoformat_shape (d : date) :
  valid_date d ->
  iso_shape (isoformat d) = true
  /\ String.length (isoformat d) = 10%nat
  /\ forall d', valid_date d' -> isoformat d = isoformat d' -> d = d'.
Proof.
  intros Hvalid. split; [|split].
  - pose proof (valid_date_fields d Hvalid) as (Hy & Hm & Hd).
    pose proof (days_in_month_le (year d) (month d)) as Hle.
    destruct (year_ok_digits _ (year_ok_range _ Hy))
      as (_ & a & b & c & d0 & HY & Ha & Hb & Hc & Hd0).
    pose proof format_0d_2_digits as H2. rewrite Forall_forall in H2.
    destruct (H2 (month d)) as (m1 & m2 & HM & Hm1 & Hm2);
      [apply elem_of_seqZ; lia|].
    destruct (H2 (day d)) as (d1 & d2 & HD & Hd1 & Hd2);
      [apply elem_of_seqZ; lia|].
    unfold isoformat. rewrite HY, HM, HD.
    rewrite ?append_cons, ?append_empty_l.
    unfold iso_shape. cbn [re_chars].
    rewrite Ha, Hb, Hc, Hd0, Hm1, Hm2, Hd1, Hd2. reflexivity.
  - by apply isoformat_length.
  - intros d' Hvalid'. by apply isoformat_inj.
Qed.

Lemma isoformat_shape_witness : iso_shape (isoformat (mkdate 2019 1 14)) = true.
Proof. apply isoformat_shape. reflexivity. Defined.
